(** * process_nclimgrid: metadata resolver, difference computation and
      persistence of climate-division index comparisons

    Shallow embedding of [src/process_nclimgrid.py]:
    - [_variable_attributes] (lines 43-149), the attribute dictionary of an
      index;
    - [_rmse], [_plot_and_save_histogram] and [_plot_and_save_lines] (lines
      161-226);
    - the comparison loop of the main block (lines 293-338), here
      [compute_diffs];
    - the provisioning and write loop of the main block (lines 340-378),
      here [persist].

    The numbers of the arrays are given by their values, as IEEE binary64
    numbers (primitive floats); the arithmetic numpy performs on them
    depends on the datatype of the arrays and is a parameter, as are the
    calls on matplotlib. Dictionaries are finite maps, Python exceptions
    are the [Raise] branch of [result], and what a run logs, plots and
    writes is a trace of events. *)

From Stdlib Require Import PrimFloat ZArith Ascii String.
From stdpp Require Import gmap strings list fin_maps pretty.

Set Warnings "-inexact-float".
Local Open Scope string_scope.

(** ** Exceptions *)

Inductive exn : Type :=
  | ValueError (message : string)
  | KeyError (key : string)
  | IndexError (message : string)
  | OtherError (class_name message : string).  (* any other exception *)

Inductive result (A : Type) : Type :=
  | Ok (a : A)
  | Raise (e : exn).
Arguments Ok {A} a.
Arguments Raise {A} e.

Global Instance result_ret : MRet result := λ A a, Ok a.
Global Instance result_bind : MBind result := λ A B k r,
  match r with
  | Ok a => k a
  | Raise e => Raise e
  end.
Global Instance result_fmap : FMap result := λ A B g r,
  match r with
  | Ok a => Ok (g a)
  | Raise e => Raise e
  end.

(** ** Python string helpers *)

Module Py.

Fixpoint zeros (n : nat) : string :=
  match n with
  | O => ""
  | S n' => String "0"%char (zeros n')
  end.

Definition is_sign (c : ascii) : bool :=
  bool_decide (c = "+"%char) || bool_decide (c = "-"%char).

(** [s.zfill(width)]: left padding with zeros, after a leading sign. *)
Definition zfill (width : nat) (s : string) : string :=
  let pad := zeros (width - String.length s) in
  match s with
  | String c rest => if is_sign c then String c (pad +:+ rest) else pad +:+ s
  | EmptyString => pad
  end.

(** [str(months)] for [months] either [None] or an [int]. *)
Definition str (months : option Z) : string :=
  match months with
  | None => "None"
  | Some z => pretty z
  end.

Definition is_digit (c : ascii) : bool :=
  let n := nat_of_ascii c in (48 <=? n)%nat && (n <=? 57)%nat.

End Py.

(** ** Metadata resolver: [_variable_attributes] *)

Inductive attr_value : Type :=
  | AStr (s : string)
  | AFloat (f : float)
  | AInt (z : Z).

(** Value of the local [variable_name] on the [else] branch (line 105). *)
Definition scaled_variable_name (index_name : string) (months : option Z) : string :=
  index_name +:+ "_" +:+ Py.zfill 2 (Py.str months).

(** Value of the local [variable_name] when the function returns; it is
    assigned on every branch and used only in the scaled dictionaries. *)
Definition variable_name (index_name : string) (months : option Z) : string :=
  if bool_decide (index_name = "pet") then "pet"
  else if bool_decide (index_name = "pdsi") then "pdsi"
  else if bool_decide (index_name = "scpdsi") then "scpdsi"
  else if bool_decide (index_name = "phdi") then "phdi"
  else if bool_decide (index_name = "pmdi") then "pmdi"
  else if bool_decide (index_name = "zindex") then "zindex"
  else scaled_variable_name index_name months.

Definition _variable_attributes (index_name : string) (months : option Z)
  : result (gmap string attr_value) :=
  if bool_decide (index_name = "pet") then
    Ok (list_to_map
          [("standard_name", AStr "pet");
           ("long_name", AStr "Potential Evapotranspiration (PET), from Thornthwaite's equation");
           ("valid_min", AFloat 0.0);
           ("valid_max", AFloat 2000.0);
           ("units", AStr "millimeter")])
  else if bool_decide (index_name = "pdsi") then
    Ok (list_to_map
          [("standard_name", AStr "pdsi");
           ("long_name", AStr "Palmer Drought Severity Index (PDSI)");
           ("valid_min", AFloat (-10.0));
           ("valid_max", AFloat 10.0)])
  else if bool_decide (index_name = "scpdsi") then
    Ok (list_to_map
          [("standard_name", AStr "scpdsi");
           ("long_name", AStr "Self-calibrated Palmer Drought Severity Index (PDSI)");
           ("valid_min", AFloat (-10.0));
           ("valid_max", AFloat 10.0)])
  else if bool_decide (index_name = "phdi") then
    Ok (list_to_map
          [("standard_name", AStr "phdi");
           ("long_name", AStr "Palmer Hydrological Drought Index (PHDI)");
           ("valid_min", AFloat (-10.0));
           ("valid_max", AFloat 10.0)])
  else if bool_decide (index_name = "pmdi") then
    Ok (list_to_map
          [("standard_name", AStr "pmdi");
           ("long_name", AStr "Palmer Modified Drought Index (PMDI)");
           ("valid_min", AFloat (-10.0));
           ("valid_max", AFloat 10.0)])
  else if bool_decide (index_name = "zindex") then
    Ok (list_to_map
          [("standard_name", AStr "zindex");
           ("long_name", AStr "Palmer Z-Index");
           ("valid_min", AFloat (-10.0));
           ("valid_max", AFloat 10.0)])
  else
    let variable_name := scaled_variable_name index_name months in
    if bool_decide (index_name = "pnp") then
      Ok (list_to_map
            [("standard_name", AStr variable_name);
             ("long_name", AStr ("Percent average precipitation, " +:+ Py.str months +:+ "-month scale"));
             ("valid_min", AInt 0);
             ("valid_max", AFloat 10.0);
             ("units", AStr "percent of average")])
    else if bool_decide (index_name = "spi_gamma") then
      Ok (list_to_map
            [("standard_name", AStr variable_name);
             ("long_name", AStr ("SPI (Gamma), " +:+ Py.str months +:+ "-month scale"));
             ("valid_min", AFloat (-3.09));
             ("valid_max", AFloat 3.09)])
    else if bool_decide (index_name = "spi_pearson") then
      Ok (list_to_map
            [("standard_name", AStr variable_name);
             ("long_name", AStr ("SPI (Pearson), " +:+ Py.str months +:+ "-month scale"));
             ("valid_min", AFloat (-3.09));
             ("valid_max", AFloat 3.09)])
    else if bool_decide (index_name = "spei_gamma") then
      Ok (list_to_map
            [("standard_name", AStr variable_name);
             ("long_name", AStr ("SPEI (Gamma), " +:+ Py.str months +:+ "-month scale"));
             ("valid_min", AFloat (-3.09));
             ("valid_max", AFloat 3.09)])
    else if bool_decide (index_name = "spei_pearson") then
      Ok (list_to_map
            [("standard_name", AStr variable_name);
             ("long_name", AStr ("SPEI (Pearson), " +:+ Py.str months +:+ "-month scale"));
             ("valid_min", AFloat (-3.09));
             ("valid_max", AFloat 3.09)])
    else
      (* the message is also passed to [logger.error] before the raise *)
      let message := index_name +:+ " is an unsupported index type" in
      Raise (ValueError message).

(** The two families of identifiers the function recognises. *)
Definition fixed_name_indices : list string :=
  ["pet"; "pdsi"; "scpdsi"; "phdi"; "pmdi"; "zindex"].
Definition time_scaled_indices : list string :=
  ["pnp"; "spi_gamma"; "spi_pearson"; "spei_gamma"; "spei_pearson"].

(** ** The array store

    The NetCDF dataset is an external collaborator; it is modelled by its
    contract: the [division] and [time] coordinate variables, and named data
    variables over the fixed dimensions (division, time). A cell read from a
    variable is either a number or masked (it held the fill value). *)

Inductive division_key : Type :=
  | KInt (z : Z)
  | KStr (s : string).

Global Instance division_key_eq_dec : EqDecision division_key.
Proof. solve_decision. Defined.

Global Instance division_key_countable : Countable division_key.
Proof.
  refine (inj_countable'
            (λ k, match k with KInt z => inl z | KStr s => inr s end)
            (λ x, match x with inl z => KInt z | inr s => KStr s end) _).
  by intros [].
Defined.

(** A masked array of numbers: [None] is a masked position. *)
Abbreviation marray := (list (option float)).

Record nc_variable : Type := NcVariable {
  datatype : string;
  dimensions : list string;
  fill_value : option float;
  data : list marray
}.

Record dataset : Type := Dataset {
  divisions : list division_key;   (* dataset.variables['division'][:] *)
  times_size : nat;                (* dataset.variables['time'][:].size *)
  variables : gmap string nc_variable
}.

(** Dictionary key of an ordinal position ([division_index]). *)
Definition ordinal (division_index : nat) : division_key :=
  KInt (Z.of_nat division_index).

(** [dataset.variables[name][division_index, :]] *)
Definition read_row (ds : dataset) (name : string) (division_index : nat)
  : result marray :=
  match variables ds !! name with
  | None => Raise (KeyError name)
  | Some v =>
      match data v !! division_index with
      | None => Raise (IndexError "index exceeds dimension bounds")
      | Some row => Ok row
      end
  end.

(** [variable[division_index, :] = data_array] on a variable of the
    dataset, whose dimensions have a fixed size: the row must exist and have
    the length of the array. The cells are stored as they are given; the
    encoding of the declared datatype and of masked cells (the fill value)
    is left to the store. *)
Definition assign_row (ds : dataset) (name : string) (division_index : nat)
    (data_array : marray) : result dataset :=
  match variables ds !! name with
  | None => Raise (KeyError name)
  | Some v =>
      match data v !! division_index with
      | None => Raise (IndexError "index exceeds dimension bounds")
      | Some row =>
          if bool_decide (length row = length data_array) then
            Ok (Dataset (divisions ds) (times_size ds)
                  (<[name := NcVariable (datatype v) (dimensions v) (fill_value v)
                               (<[division_index := data_array]> (data v))]>
                     (variables ds)))
          else Raise (ValueError "shape mismatch")
      end
  end.

(** [dataset.createVariable(name, datatype, ('division', 'time',),
    fill_value=np.NaN)]: every cell of the new variable is unwritten. *)
Definition create_variable (ds : dataset) (name datatype : string) : dataset :=
  Dataset (divisions ds) (times_size ds)
    (<[name := NcVariable datatype ["division"; "time"] (Some nan)
                 (replicate (length (divisions ds))
                    (replicate (times_size ds) None))]>
       (variables ds)).

(** The datatype of a variable of the store; the arrays read from the
    variable have it as their [dtype]. *)
Definition variable_dtype (ds : dataset) (name : string) : string :=
  match variables ds !! name with
  | Some v => datatype v
  | None => ""
  end.

(** ** Events and external libraries *)

(** A numpy array of one dimension: the cells with the datatype numpy
    computes in. *)
Record ndarray : Type := NdArray {
  dtype : string;
  cells : marray
}.

(** The calls of the file on [matplotlib.pyplot], with their arguments. *)
Inductive plt_call : Type :=
  | GcfClear                                   (* plt.gcf().clear() *)
  | Hist (x : marray) (bins : Z) (range : Z * Z)
  | Title (label : string)
  | TitleRmse (grid_name : division_key) (varname : string)
      (error : option float)
  | Xlabel (xlabel : string)
  | Ylabel (ylabel : string)
  | Savefig (fname : string) (bbox_inches : option string)
  | Figure (figsize : Z * Z)
  | Axes
  | SetYlim (bottom top : Z)                   (* ax.set_ylim([bottom, top]) *)
  | Axhline
  | Plot (x : list nat) (y : marray) (color : string)
      (linestyle : option string) (label : string)
  | Legend (handles : list string) (loc : string)
  | SubplotsAdjust (left right top bottom : float)
  | Close.

(** What a run does to the outside: log lines, operations on the dataset,
    calls on pyplot, and operations on the module-level [lock] (line 39). No
    statement of the file acquires or releases [lock], so the last two never
    occur in the traces below. *)
Inductive event : Type :=
  | LogInfo (message : string)
  | CreateVariable (name datatype : string)
  | AssignRow (name : string) (division_index : nat) (data_array : marray)
  | Plt (call : plt_call)
  | LockAcquire
  | LockRelease.

(** numpy and matplotlib are not part of this file: they are parameters of
    the development.
    - [np_subtract dt1 dt2] is the subtraction numpy performs on an element
      of an array of datatype [dt1] and one of an array of datatype [dt2],
      in the datatype [np_result_type dt1 dt2] of the result (on f8 arrays
      the subtraction of binary64 numbers; on f4 arrays the one of binary32
      numbers; on integer arrays the one that wraps around);
    - [ma_power], [ma_mean] and [np_sqrt] are [a ** n], [a.mean()] and
      [np.sqrt] on masked arrays and their means;
    - [pyplot trace call] is the outcome of a call on pyplot after the
      events of [trace]: pyplot accepts the call or raises. *)
Record externals : Type := Externals {
  np_subtract : string → string → float → float → float;
  np_result_type : string → string → string;
  ma_power : ndarray → Z → ndarray;
  ma_mean : ndarray → option float;
  np_sqrt : option float → option float;
  pyplot : list event → plt_call → result unit
}.

(** ** Masked arrays (numpy.ma) *)

Definition mask_invalid_cell (c : option float) : option float :=
  match c with
  | Some x => if is_finite x then Some x else None
  | None => None
  end.

(** [np.ma.masked_invalid(a, copy=False)] *)
Definition masked_invalid (a : marray) : marray := mask_invalid_cell <$> a.

(** The difference of two cells, [minus] being the subtraction of the
    numbers: masked when one of them is. *)
Definition subtract_cell (minus : float → float → float)
    (x y : option float) : option float :=
  match x, y with
  | Some u, Some v => Some (minus u v)
  | _, _ => None
  end.

(** [a - b] on the cells of one-dimensional masked arrays, with numpy's
    broadcasting of a length-one operand. *)
Definition ma_subtract (minus : float → float → float) (a b : marray)
  : result marray :=
  if bool_decide (length a = length b)
  then Ok (zip_with (subtract_cell minus) a b)
  else
    match a, b with
    | [x], _ => Ok ((λ y, subtract_cell minus x y) <$> b)
    | _, [y] => Ok ((λ x, subtract_cell minus x y) <$> a)
    | _, _ => Raise (ValueError "operands could not be broadcast together")
    end.

(** [dataset.variables[name][division_index, :]] as a numpy array. *)
Definition read_array (ds : dataset) (name : string) (division_index : nat)
  : result ndarray :=
  NdArray (variable_dtype ds name) <$> read_row ds name division_index.

Definition nd_masked_invalid (a : ndarray) : ndarray :=
  NdArray (dtype a) (masked_invalid (cells a)).

(** [str(division_id)], as [%s] and [{}] format an identifier. *)
Definition format_id (division_id : division_key) : string :=
  match division_id with
  | KInt z => pretty z
  | KStr s => s
  end.

(** [logger.info(message)] *)
Definition log_info (trace : list event) (message : string) : list event :=
  (trace ++ [LogInfo message])%list.

Section Compute.

Variable ext : externals.

(** [a - b] on masked arrays: numpy subtracts in the datatypes of the two
    arrays. *)
Definition nd_subtract (a b : ndarray) : result ndarray :=
  NdArray (np_result_type ext (dtype a) (dtype b))
    <$> ma_subtract (np_subtract ext (dtype a) (dtype b)) (cells a) (cells b).

(** A call on pyplot: it raises, or it is recorded. *)
Definition plt (trace : list event) (call : plt_call)
  : result (list event) :=
  _ ← pyplot ext trace call; Ok (trace ++ [Plt call])%list.

(** ** [_rmse] (lines 161-169) *)

Definition _rmse (predictions targets : ndarray) : result (option float) :=
  error ← nd_subtract predictions targets;
  Ok (np_sqrt ext (ma_mean ext (ma_power ext error 2))).

(** ** [_plot_and_save_histogram] (lines 172-190) *)

Definition _plot_and_save_histogram (difference_values : ndarray)
    (number_of_bins range_lower range_upper : Z) (index_name : string)
    (grid_name : division_key) (title output_filepath : string)
    (trace : list event) : result (list event) :=
  trace ← plt trace GcfClear;
  trace ← plt trace (Hist (cells difference_values) number_of_bins
                       (range_lower, range_upper));
  trace ← plt trace (Title (title +:+ ": " +:+ index_name +:+ ", "
                            +:+ format_id grid_name));
  trace ← plt trace (Xlabel "Value");
  trace ← plt trace (Ylabel "Frequency");
  let trace :=
    log_info trace ("Saving histogram plot for index " +:+ index_name
                    +:+ " to file " +:+ output_filepath) in
  plt trace (Savefig output_filepath None).

(** ** [_plot_and_save_lines] (lines 193-226) *)

Definition _plot_and_save_lines (expected actual difference_values : ndarray)
    (grid_name : division_key) (varname output_filepath : string)
    (trace : list event) : result (list event) :=
  error ← _rmse actual expected;
  trace ← plt trace (Figure (30, 6)%Z);
  let x := seq 0 (length (cells difference_values)) in
  trace ← plt trace Axes;
  trace ← plt trace (SetYlim (-5) 5);
  trace ← plt trace Axhline;
  trace ← plt trace (Plot x (cells expected) "blue" None "NCEI (expected)");
  trace ← plt trace (Plot x (cells actual) "yellow" (Some "--")
                       "NIDIS (actual)");
  trace ← plt trace (Plot x (cells difference_values) "red" None
                       "Difference");
  trace ← plt trace (Legend ["NCEI (expected)"; "NIDIS (actual)";
                             "Difference"] "upper left");
  trace ← plt trace (TitleRmse grid_name varname error);
  trace ← plt trace (Xlabel "months");
  trace ← plt trace (Ylabel "value");
  trace ← plt trace (SubplotsAdjust 0.02 0.99 0.9 0.1);
  let trace :=
    log_info trace ("Saving histogram plot for index " +:+ varname
                    +:+ " to file " +:+ output_filepath) in
  trace ← plt trace (Savefig output_filepath (Some "tight"));
  plt trace Close.

(** ** Difference computation (lines 297-338) *)

(** The cells of [differences] in the iteration for [division_index]
    (lines 312-316): the subtraction is the one of the datatypes of the two
    variables. *)
Definition differences_of (ds : dataset) (var_names : string * string)
    (division_index : nat) : result marray :=
  data_CMB ← masked_invalid <$> read_row ds var_names.1 division_index;
  data_NIDIS ← masked_invalid <$> read_row ds var_names.2 division_index;
  ma_subtract (np_subtract ext (variable_dtype ds var_names.1)
                 (variable_dtype ds var_names.2))
    data_CMB data_NIDIS.

(** The loop over [enumerate(dataset.variables['division'][:])] (lines
    307-338): an exception of a read, of the subtraction or of a plotting
    call ends the run. *)
Fixpoint diff_loop (ds : dataset) (index : string)
    (var_names : string * string) (division_index : nat)
    (ids : list division_key) (diffs : gmap division_key marray)
    (trace : list event) : result (gmap division_key marray * list event) :=
  match ids with
  | [] => Ok (diffs, trace)
  | division_id :: rest =>
      let trace :=
        log_info trace ("Computing diffs for climate division ID: "
                        +:+ format_id division_id) in
      data_CMB ← nd_masked_invalid
                   <$> read_array ds var_names.1 division_index;
      data_NIDIS ← nd_masked_invalid
                     <$> read_array ds var_names.2 division_index;
      differences ← nd_subtract data_CMB data_NIDIS;
      let diffs := <[ordinal division_index := cells differences]> diffs in
      trace ← _plot_and_save_histogram differences 80 (-2) 2 index
                division_id "CMB vs. NIDIS: "
                ("C:/home/data/nclimdiv/diffs_histogram_" +:+ var_names.2
                 +:+ "_" +:+ format_id division_id +:+ ".png")
                trace;
      trace ← _plot_and_save_lines data_NIDIS data_CMB differences
                division_id index
                ("C:/home/data/nclimdiv/diffs_line_" +:+ var_names.2
                 +:+ "_" +:+ format_id division_id +:+ ".png")
                trace;
      diff_loop ds index var_names (S division_index) rest
        (<[division_id := cells differences]> diffs) trace
  end.

(** Lines 297-338: the log line of the comparison, the empty dictionary and
    the loop. *)
Definition compute_diffs (ds : dataset) (index : string)
    (var_names : string * string) (trace : list event)
  : result (gmap division_key marray * list event) :=
  diff_loop ds index var_names 0 (divisions ds) ∅
    (log_info trace ("Computing differences on variable " +:+ index)).

End Compute.

(** ** Provisioning and writing the differences (lines 340-378) *)

Definition unexpected_size_message (division_index times_size size : nat) : string :=
  "Unexpected size of data array for division index " +:+ pretty division_index
    +:+ " -- " +:+ "expected " +:+ pretty times_size
    +:+ " time steps but the array contains " +:+ pretty size.

(** [random.choice(seq)], the draw being the argument [rnd]. *)
Definition random_choice {A} (rnd : nat) (seq : list A) : result A :=
  match seq !! (rnd mod length seq) with
  | Some x => Ok x
  | None => Raise (IndexError "Cannot choose from an empty sequence")
  end.

(** [random_array[0]] *)
Definition first_item (random_array : marray) : result (option float) :=
  match random_array with
  | x :: _ => Ok x
  | [] => Raise (IndexError "index 0 is out of bounds for axis 0 with size 0")
  end.

Section Persist.

(** [netcdf_utils.find_netcdf_datatype] is not part of this file: it is a
    parameter of the development. *)
Variable find_netcdf_datatype : option float → result string.

(** Lines 340-357: reuse the variable when its name is in use, create it
    otherwise. *)
Definition provision (rnd : nat) (ds : dataset)
    (diffs : gmap division_key marray) (index : string)
  : result (dataset * list event) :=
  let diff_variable_name := "diffs_" +:+ index in
  match variables ds !! diff_variable_name with
  | Some _ => Ok (ds, [])
  | None =>
      random_array ← random_choice rnd (map_to_list diffs).*2;
      item ← first_item random_array;
      netcdf_data_type ← find_netcdf_datatype item;
      Ok (create_variable ds diff_variable_name netcdf_data_type,
          [CreateVariable diff_variable_name netcdf_data_type])
  end.

(** Lines 363-378: the loop over the existing divisions. *)
Fixpoint write_loop (diff_variable_name : string)
    (diffs : gmap division_key marray) (division_index : nat)
    (ids : list division_key) (ds : dataset) (trace : list event)
  : result (dataset * list event) :=
  match ids with
  | [] => Ok (ds, trace)
  | _ :: rest =>
      match diffs !! ordinal division_index with
      | Some data_array =>
          if bool_decide (length data_array = times_size ds) then
            ds' ← assign_row ds diff_variable_name division_index data_array;
            write_loop diff_variable_name diffs (S division_index) rest ds'
              (trace ++ [AssignRow diff_variable_name division_index data_array])
          else
            write_loop diff_variable_name diffs (S division_index) rest ds
              (trace ++ [LogInfo (unexpected_size_message division_index
                                    (times_size ds) (length data_array))])
      | None =>
          write_loop diff_variable_name diffs (S division_index) rest ds trace
      end
  end.

Definition persist (rnd : nat) (ds : dataset)
    (diffs : gmap division_key marray) (index : string)
  : result (dataset * list event) :=
  '(ds1, trace) ← provision rnd ds diffs index;
  write_loop ("diffs_" +:+ index) diffs 0 (divisions ds1) ds1 trace.

End Persist.

(** One iteration of the loop over [comparison_arrays] (lines 293-378),
    after the events of [trace]. *)
Definition compare_index (ext : externals)
    (find_netcdf_datatype : option float → result string) (rnd : nat)
    (ds : dataset) (index : string) (var_names : string * string)
    (trace : list event) : result (dataset * list event) :=
  '(diffs, trace) ← compute_diffs ext ds index var_names trace;
  '(ds', events) ← persist find_netcdf_datatype rnd ds diffs index;
  Ok (ds', (trace ++ events)%list).

(** The row of a variable, as it is stored. *)
Definition row_of (ds : dataset) (name : string) (division_index : nat)
  : option marray :=
  v ← variables ds !! name; data v !! division_index.

(** Every write of the trace happens while the lock is held, and the lock
    is released at the end. *)
Fixpoint writes_serialized (held : bool) (trace : list event) : bool :=
  match trace with
  | [] => negb held
  | LockAcquire :: rest => negb held && writes_serialized true rest
  | LockRelease :: rest => held && writes_serialized false rest
  | AssignRow _ _ _ :: rest => held && writes_serialized held rest
  | CreateVariable _ _ :: rest => held && writes_serialized held rest
  | LogInfo _ :: rest => writes_serialized held rest
  | Plt _ :: rest => writes_serialized held rest
  end.

(** ** The store of the end-to-end scenario *)

Definition row_of_numbers (l : list float) : marray := Some <$> l.

Definition scenario : dataset :=
  Dataset [KInt 101; KInt 102] 4
    (<["cmb_zndx" := NcVariable "f8" ["division"; "time"] None
         [row_of_numbers [1; 2; 3; 4]; row_of_numbers [5; 6; 7; 8]]%float]>
       (<["zindex" := NcVariable "f8" ["division"; "time"] None
            [row_of_numbers [1; 1; 2; 5]; row_of_numbers [5; 6; 7; 9]]%float]> ∅)).

(** ** The loop over the comparisons (lines 289-293) *)

(** The dictionary [comparison_arrays], in its insertion order, which is
    the order of the iteration. *)
Definition comparison_arrays : list (string * (string * string)) :=
  [("PDSI", ("wrcc_pdsi", "pdsi"));
   ("PHDI", ("wrcc_phdi", "phdi"));
   ("PMDI", ("wrcc_pmdi", "pmdi"));
   ("Z-Index", ("cmb_zndx", "zindex"))].

(** [for index, var_names in comparison_arrays.items()], on the dataset
    left by the iteration before; [draw index] is the random draw of the
    iteration for [index]. *)
Fixpoint run_comparisons (ext : externals)
    (find_netcdf_datatype : option float → result string)
    (draw : string → nat) (comparisons : list (string * (string * string)))
    (ds : dataset) (trace : list event) : result (dataset * list event) :=
  match comparisons with
  | [] => Ok (ds, trace)
  | (index, var_names) :: rest =>
      '(ds', trace) ← compare_index ext find_netcdf_datatype (draw index) ds
                        index var_names trace;
      run_comparisons ext find_netcdf_datatype draw rest ds' trace
  end.

(** * Vocabulary of the statements *)

(** Valid ranges as documented: PET in millimetres, the Palmer family,
    percent of normal precipitation (whose lower bound is the integer 0 in
    the source), and the SPI and SPEI variants. *)
Definition documented_valid_range (index_name : string) : attr_value * attr_value :=
  if bool_decide (index_name = "pet") then (AFloat 0, AFloat 2000)
  else if bool_decide (index_name ∈ ["pdsi"; "scpdsi"; "phdi"; "pmdi"; "zindex"])
  then (AFloat (-10), AFloat 10)
  else if bool_decide (index_name = "pnp") then (AInt 0, AFloat 10)
  else (AFloat (-3.09), AFloat 3.09).

(** The derivation rule of the variable name of a supported index. *)
Definition derived_variable_name (index_name : string) (months : option Z) : string :=
  if bool_decide (index_name ∈ fixed_name_indices) then index_name
  else index_name +:+ "_" +:+ Py.zfill 2 (Py.str months).

(** Characters a decimal numeral is made of. *)
Definition numeral_char (c : ascii) : bool := Py.is_digit c || Py.is_sign c.

Fixpoint numeral (s : string) : bool :=
  match s with
  | EmptyString => true
  | String c rest => numeral_char c && numeral rest
  end.

(** The name ends with an underscore and two digits. *)
Definition two_digit_suffix (name : string) : bool :=
  match reverse (String.list_ascii_of_string name) with
  | d2 :: d1 :: u :: _ =>
      Py.is_digit d2 && Py.is_digit d1 && bool_decide (u = "_"%char)
  | _ => false
  end.

(** A call for a supported index: a fixed-name identifier, or a
    time-scaled identifier with a scale. *)
Definition supported_call (index_name : string) (months : option Z) : Prop :=
  index_name ∈ fixed_name_indices
  ∨ (index_name ∈ time_scaled_indices ∧ is_Some months).

(** The first character is a digit other than zero. *)
Definition leading_nonzero_digit (s : string) : bool :=
  match s with
  | String c _ => Py.is_digit c && negb (bool_decide (c = "0"%char))
  | EmptyString => false
  end.

(** Undoes the padding of a one-digit numeral. *)
Definition unpad (s : string) : string :=
  match s with
  | String c (String d EmptyString) =>
      if bool_decide (c = "0"%char) then String d EmptyString else s
  | _ => s
  end.

(** A cell that counts as no data: masked on read, or not a finite number. *)
Definition cell_missing (c : option float) : bool :=
  match c with
  | Some x => negb (is_finite x)
  | None => true
  end.

(** No identifier is repeated, and no identifier is the ordinal position of
    another division. *)
Definition keys_unambiguous (ids : list division_key) : Prop :=
  NoDup ids
  ∧ ∀ i j, i < length ids → ids !! j = Some (ordinal i) → i = j.

(** Stores whose variables all have the declared (division, time) shape. *)
Definition has_shape (n t : nat) (v : nc_variable) : Prop :=
  length (data v) = n ∧ Forall (λ row, length row = t) (data v).

Definition store_wf (ds : dataset) : Prop :=
  map_Forall (λ _ v, has_shape (length (divisions ds)) (times_size ds) v)
    (variables ds).

(** Two divisions whose identifiers are 1 and 2: the identifier of the
    first is the ordinal position of the second. *)
Definition overlapping_store : dataset :=
  Dataset [KInt 1; KInt 2] 1
    (<["reference" := NcVariable "f8" ["division"; "time"] None
         [row_of_numbers [1]; row_of_numbers [5]]%float]>
       (<["candidate" := NcVariable "f8" ["division"; "time"] None
            [row_of_numbers [0]; row_of_numbers [0]]%float]> ∅)).

(** One division with a number that is not finite in the reference and a
    masked cell in the candidate. *)
Definition gappy_store : dataset :=
  Dataset [KInt 101] 3
    (<["reference" := NcVariable "f8" ["division"; "time"] None
         [[Some 1; Some nan; Some 3]]%float]>
       (<["candidate" := NcVariable "f8" ["division"; "time"] None
            [[None; Some 2; Some 5]]%float]> ∅)).

(** Declared type, dimensions, fill value and shape of a variable. *)
Definition same_declaration (v v' : nc_variable) : Prop :=
  datatype v' = datatype v
  ∧ dimensions v' = dimensions v
  ∧ fill_value v' = fill_value v
  ∧ length <$> data v' = length <$> data v.

(** The division [i] is visited by the loop started at [k] over [n]
    divisions, and has the array [d] of the expected size [t]. *)
Definition written (diffs : gmap division_key marray) (t k n i : nat)
    (d : marray) : Prop :=
  k ≤ i < k + n ∧ diffs !! ordinal i = Some d ∧ length d = t.

(** The events of the loop started at [k] over [n] divisions. *)
Definition loop_event (name : string) (diffs : gmap division_key marray)
    (t k n : nat) (e : event) : Prop :=
  ∃ i d, k ≤ i < k + n ∧ diffs !! ordinal i = Some d
         ∧ ((length d = t ∧ e = AssignRow name i d)
            ∨ (length d ≠ t
               ∧ e = LogInfo (unexpected_size_message i t (length d)))).

(** A stand-in for [netcdf_utils.find_netcdf_datatype] in the examples. *)
Definition always_f8 (item : option float) : result string := Ok "f8".

(** Differences for the two divisions of the scenario, the first one a
    time step short. *)
Definition short_diffs : gmap division_key marray :=
  <[ordinal 0 := row_of_numbers [1; 2; 3]%float]>
    (<[ordinal 1 := row_of_numbers [0; 0; 0; 1]%float]> ∅).

(** No division after [i] has the ordinal position [i] as its identifier. *)
Definition ordinal_kept (ids : list division_key) (i : nat) : Prop :=
  ∀ j, i < j → ids !! j ≠ Some (ordinal i).

(** The eight variables the comparisons read. *)
Definition compared_variables : list string :=
  ["wrcc_pdsi"; "pdsi"; "wrcc_phdi"; "phdi"; "wrcc_pmdi"; "pmdi";
   "cmb_zndx"; "zindex"].

(** The scenario with the eight compared variables, all with the rows of
    the reference of the scenario but [zindex]. *)
Definition full_scenario : dataset :=
  let reference :=
    NcVariable "f8" ["division"; "time"] None
      [row_of_numbers [1; 2; 3; 4]; row_of_numbers [5; 6; 7; 8]]%float in
  Dataset [KInt 101; KInt 102] 4
    (<["wrcc_pdsi" := reference]> (<["pdsi" := reference]>
       (<["wrcc_phdi" := reference]> (<["phdi" := reference]>
          (<["wrcc_pmdi" := reference]> (<["pmdi" := reference]>
             (variables scenario))))))).

(** Two divisions, the second one with the ordinal position of the first
    as its identifier. *)
Definition shadowing_store : dataset :=
  Dataset [KInt 5; KInt 0] 1
    (<["reference" := NcVariable "f8" ["division"; "time"] None
         [row_of_numbers [1]; row_of_numbers [5]]%float]>
       (<["candidate" := NcVariable "f8" ["division"; "time"] None
            [row_of_numbers [0]; row_of_numbers [0]]%float]> ∅)).

(** The labels are distinct and no comparison reads a variable of the
    differences of a comparison of the list. *)
Definition comparisons_independent
    (comparisons : list (string * (string * string))) : Prop :=
  NoDup comparisons.*1
  ∧ Forall (λ c, Forall (λ c', c.2.1 ≠ "diffs_" +:+ c'.1
                               ∧ c.2.2 ≠ "diffs_" +:+ c'.1) comparisons)
      comparisons.

(** The dictionary the loop leaves when it completes: the entries of the
    iterations, without the log lines and the plotting calls of the
    loop. *)
Fixpoint diff_entries (ext : externals) (ds : dataset)
    (var_names : string * string) (division_index : nat)
    (ids : list division_key) (diffs : gmap division_key marray)
  : result (gmap division_key marray) :=
  match ids with
  | [] => Ok diffs
  | division_id :: rest =>
      differences ← differences_of ext ds var_names division_index;
      diff_entries ext ds var_names (S division_index) rest
        (<[division_id := differences]>
           (<[ordinal division_index := differences]> diffs))
  end.

Definition diff_dictionary (ext : externals) (ds : dataset)
    (var_names : string * string) : result (gmap division_key marray) :=
  diff_entries ext ds var_names 0 (divisions ds) ∅.

(** pyplot accepts every call of the run. *)
Definition plots_accepted (ext : externals) : Prop :=
  ∀ trace call, pyplot ext trace call = Ok tt.

(** On f8 arrays numpy subtracts binary64 numbers. *)
Definition f8_arithmetic (ext : externals) : Prop :=
  ∀ x y, np_subtract ext "f8" "f8" x y = (x - y)%float.

(** The messages of the difference computation and of the plotting
    functions. *)
Definition progress_message (message : string) : Prop :=
  ∃ rest, message = "Computing " +:+ rest ∨ message = "Saving " +:+ rest.

(** The events of the difference computation: progress messages and calls
    on pyplot. *)
Definition progress_event (e : event) : Prop :=
  match e with
  | LogInfo message => progress_message message
  | Plt _ => True
  | _ => False
  end.

(** [x ** n] on a binary64 number, for an exponent that is not negative. *)
Definition binary64_power (x : float) (n : Z) : float :=
  Z.iter n (λ acc, acc * x)%float 1%float.

(** The mean of the numbers of a masked array, added from left to right;
    masked when the array has no number. *)
Definition binary64_mean (a : ndarray) : option float :=
  match omap id (cells a) with
  | [] => None
  | numbers =>
      Some (foldl PrimFloat.add 0 numbers
            / foldl (λ count _, count + 1) 0 numbers)%float
  end.

(** Stand-ins for numpy and matplotlib in the examples, whose variables all
    have the datatype f8: the arithmetic of binary64 numbers, and a pyplot
    that accepts every call. *)
Definition binary64_libraries : externals :=
  Externals (λ _ _, PrimFloat.sub) (λ _ _, "f8")
    (λ a n, NdArray (dtype a)
              (option_map (λ x, binary64_power x n) <$> cells a))
    binary64_mean (option_map PrimFloat.sqrt) (λ _ _, Ok tt).


(** * Facts about the metadata resolver *)

(** Closed decidable goals, by evaluation. *)
Ltac by_compute := apply (bool_decide_unpack _); vm_compute; exact I.

(** Case analysis on membership in a list given by its elements. *)
Ltac each_member H :=
  repeat (apply elem_of_cons in H as [->|H]); [..|by apply elem_of_nil in H].

Lemma numeral_app s t : numeral (s +:+ t) = numeral s && numeral t.
Proof.
  induction s as [|c s IH]; simpl; [done|].
  rewrite IH. by destruct (numeral_char c).
Qed.

Lemma numeral_zeros n : numeral (Py.zeros n) = true.
Proof. induction n; simpl; auto. Qed.

Lemma numeral_zfill width s : numeral s = true → numeral (Py.zfill width s) = true.
Proof.
  intros Hs. unfold Py.zfill. destruct s as [|c rest]; [apply numeral_zeros|].
  destruct (Py.is_sign c) eqn:Hc.
  - simpl in *. apply andb_true_iff in Hs as [Hc' Hrest].
    rewrite Hc', numeral_app, numeral_zeros, Hrest. done.
  - by rewrite numeral_app, numeral_zeros, Hs.
Qed.

Lemma numeral_pretty_N_char x : numeral_char (pretty_N_char x) = true.
Proof. unfold pretty_N_char. by repeat case_match. Qed.

Lemma numeral_pretty_N_go x s : numeral s = true → numeral (pretty_N_go x s) = true.
Proof.
  revert s. induction (N.lt_wf_0 x) as [x _ IH]; intros s Hs.
  destruct (decide (x = 0)%N) as [->|Hx]; [by rewrite pretty_N_go_0|].
  rewrite pretty_N_go_step by lia. apply IH.
  - apply N.div_lt; lia.
  - simpl. by rewrite numeral_pretty_N_char, Hs.
Qed.

Lemma numeral_pretty_N (x : N) : numeral (pretty x) = true.
Proof.
  unfold pretty, pretty_N. case_decide; [done|]. by apply numeral_pretty_N_go.
Qed.

Lemma numeral_pretty_Z (z : Z) : numeral (pretty z) = true.
Proof.
  destruct z as [|p|p]; [done|apply numeral_pretty_N|].
  change (pretty (Z.neg p)) with ("-" +:+ pretty (N.pos p)).
  rewrite numeral_app. by rewrite numeral_pretty_N.
Qed.

Lemma zfill_scale_ne_None (scale : Z) : Py.zfill 2 (pretty scale) ≠ "None".
Proof.
  intros H. pose proof (numeral_zfill 2 _ (numeral_pretty_Z scale)) as Hn.
  rewrite H in Hn. discriminate.
Qed.

Lemma string_app_inj_l (s t u : string) : s +:+ t = s +:+ u → t = u.
Proof. induction s; simpl; intros H; [done|]. injection H. auto. Qed.

(** C3: an identifier outside the two supported families never gets a
    record, whatever the time scale: the call raises the error that carries
    the identifier in its message. *)
Theorem variable_attributes_unsupported (index_name : string) (months : option Z) :
  index_name ∉ fixed_name_indices →
  index_name ∉ time_scaled_indices →
  _variable_attributes index_name months
  = Raise (ValueError (index_name +:+ " is an unsupported index type")).
Proof.
  intros Hfixed Hscaled. unfold _variable_attributes.
  repeat (case_bool_decide;
          [exfalso; subst index_name;
           first [apply Hfixed; set_solver | apply Hscaled; set_solver]|]).
  reflexivity.
Qed.

Lemma variable_attributes_unsupported_witness :
  _variable_attributes "bogus_index" None
  = Raise (ValueError "bogus_index is an unsupported index type").
Proof.
  apply (variable_attributes_unsupported "bogus_index" None); by_compute.
Defined.

Lemma zfill_two_digits (scale : Z) :
  (0 ≤ scale < 100)%Z →
  ∃ d1 d2,
    Py.is_digit d1 = true ∧ Py.is_digit d2 = true
    ∧ Py.zfill 2 (pretty scale) = String d1 (String d2 "").
Proof.
  intros Hscale.
  assert (∃ n, n < 100 ∧ scale = Z.of_nat n) as (n & Hn & ->)
    by (exists (Z.to_nat scale); lia).
  do 100 (destruct n as [|n];
          [do 2 eexists; (split; [|split]);
           [| |vm_compute; reflexivity]; reflexivity|]).
  lia.
Qed.

Lemma scaled_name_two_digits (index_name : string) (scale : Z) :
  index_name ∈ time_scaled_indices → (0 ≤ scale < 100)%Z →
  two_digit_suffix (scaled_variable_name index_name (Some scale)) = true.
Proof.
  intros Hin Hscale.
  destruct (zfill_two_digits scale Hscale) as (d1 & d2 & Hd1 & Hd2 & Hfill).
  unfold scaled_variable_name, Py.str. rewrite Hfill.
  unfold time_scaled_indices in Hin.
  each_member Hin; cbv -[Py.is_digit]; by rewrite Hd1, Hd2.
Qed.

(** C4 (as the code has it): for every supported identifier (with a scale
    for the time-scaled ones) the resolver returns the attribute dictionary;
    its [standard_name] is the variable name the function computes: the
    identifier itself for a fixed-name index and the identifier, an
    underscore and the scale zero-padded to two digits for a time-scaled
    index (exactly two digits for the scales 0 to 99); its [valid_min] and
    [valid_max] are the documented constants. *)
Theorem variable_attributes_supported (index_name : string) (months : option Z) :
  index_name ∈ fixed_name_indices
  ∨ (index_name ∈ time_scaled_indices ∧ is_Some months) →
  ∃ attrs,
    _variable_attributes index_name months = Ok attrs
    ∧ variable_name index_name months = derived_variable_name index_name months
    ∧ attrs !! "standard_name"
      = Some (AStr (derived_variable_name index_name months))
    ∧ attrs !! "valid_min" = Some (documented_valid_range index_name).1
    ∧ attrs !! "valid_max" = Some (documented_valid_range index_name).2
    ∧ (index_name ∈ time_scaled_indices →
       ∀ scale, months = Some scale → (0 ≤ scale < 100)%Z →
         two_digit_suffix (derived_variable_name index_name months) = true).
Proof.
  intros [Hin|[Hin [scale ->]]].
  - unfold fixed_name_indices in Hin.
    each_member Hin; eexists; (split; [reflexivity|]);
      (split; [vm_compute; reflexivity|]);
      (split; [vm_compute; reflexivity|]);
      (split; [vm_compute; reflexivity|]);
      (split; [vm_compute; reflexivity|]);
      intros Hscaled; exfalso; revert Hscaled; by_compute.
  - assert (derived_variable_name index_name (Some scale)
            = scaled_variable_name index_name (Some scale)) as Hname.
    { unfold time_scaled_indices in Hin. each_member Hin; reflexivity. }
    assert (∀ scale', Some scale = Some scale' → (0 ≤ scale' < 100)%Z →
              two_digit_suffix (derived_variable_name index_name (Some scale))
              = true) as Hdigits.
    { intros scale' [= <-] Hscale. rewrite Hname.
      by apply scaled_name_two_digits. }
    unfold time_scaled_indices in Hin.
    each_member Hin; eexists; (split; [reflexivity|]);
      (split; [vm_compute; reflexivity|]);
      (split; [vm_compute; reflexivity|]);
      (split; [vm_compute; reflexivity|]);
      (split; [vm_compute; reflexivity|]);
      intros _; apply Hdigits.
Qed.

Lemma variable_attributes_supported_witness :
  (∃ attrs,
     _variable_attributes "spi_gamma" (Some 3%Z) = Ok attrs
     ∧ variable_name "spi_gamma" (Some 3%Z) = "spi_gamma_03"
     ∧ attrs !! "standard_name" = Some (AStr "spi_gamma_03")
     ∧ attrs !! "valid_min" = Some (AFloat (-3.09))
     ∧ attrs !! "valid_max" = Some (AFloat 3.09)
     ∧ two_digit_suffix "spi_gamma_03" = true)
  ∧ (∃ attrs,
       _variable_attributes "pdsi" None = Ok attrs
       ∧ variable_name "pdsi" None = "pdsi"
       ∧ attrs !! "standard_name" = Some (AStr "pdsi")
       ∧ attrs !! "valid_min" = Some (AFloat (-10.0))
       ∧ attrs !! "valid_max" = Some (AFloat 10.0)).
Proof.
  split.
  - destruct (variable_attributes_supported "spi_gamma" (Some 3%Z))
      as (attrs & Hcall & Hname & Hstd & Hmin & Hmax & Hdigits).
    { right. split; [by_compute|by eexists]. }
    exists attrs. do 5 (split; [done|]).
    apply (Hdigits ltac:(by_compute) 3%Z); [reflexivity|lia].
  - destruct (variable_attributes_supported "pdsi" None)
      as (attrs & Hcall & Hname & Hstd & Hmin & Hmax & _).
    { left. by_compute. }
    exists attrs. by repeat split.
Defined.

(** C4, as stated, fails: the dictionary the resolver returns has no entry
    for the variable name, which stays local to the function. *)
Lemma record_has_no_variable_name :
  ¬ ∃ attrs,
      _variable_attributes "pdsi" None = Ok attrs
      ∧ attrs !! "variable_name" = Some (AStr "pdsi").
Proof.
  intros (attrs & Hcall & Hname).
  vm_compute in Hcall. injection Hcall as <-.
  vm_compute in Hname. discriminate.
Qed.

(** C9: without a time scale, a call for a time-scaled identifier returns
    a dictionary named after the identifier followed by [_None]: that name
    ends in no underscore and two digits, and it is the name of no scale. *)
Theorem variable_attributes_without_scale (index_name : string) :
  index_name ∈ time_scaled_indices →
  ∃ attrs,
    _variable_attributes index_name None = Ok attrs
    ∧ variable_name index_name None = index_name +:+ "_None"
    ∧ attrs !! "standard_name" = Some (AStr (index_name +:+ "_None"))
    ∧ two_digit_suffix (index_name +:+ "_None") = false
    ∧ ∀ scale : Z,
        index_name +:+ "_None" ≠ scaled_variable_name index_name (Some scale).
Proof.
  intros Hin.
  assert (∀ scale : Z,
    index_name +:+ "_None" ≠ scaled_variable_name index_name (Some scale))
    as Hscale.
  { intros scale Heq. unfold scaled_variable_name in Heq.
    apply string_app_inj_l in Heq.
    apply (string_app_inj_l "_") in Heq.
    by apply (zfill_scale_ne_None scale). }
  unfold time_scaled_indices in Hin.
  each_member Hin; eexists; (split; [reflexivity|]);
    (split; [vm_compute; reflexivity|]);
    (split; [vm_compute; reflexivity|]);
    (split; [vm_compute; reflexivity|]); apply Hscale.
Qed.

Lemma variable_attributes_without_scale_witness :
  ∃ attrs,
    _variable_attributes "spi_gamma" None = Ok attrs
    ∧ variable_name "spi_gamma" None = "spi_gamma_None"
    ∧ attrs !! "standard_name" = Some (AStr "spi_gamma_None")
    ∧ two_digit_suffix "spi_gamma_None" = false
    ∧ ∀ scale : Z,
        "spi_gamma_None" ≠ scaled_variable_name "spi_gamma" (Some scale).
Proof.
  apply (variable_attributes_without_scale "spi_gamma"). by_compute.
Defined.

(** * Facts about the difference computation *)

Lemma bind_Ok {A B} (r : result A) (k : A → result B) (b : B) :
  r ≫= k = Ok b → ∃ a, r = Ok a ∧ k a = Ok b.
Proof. destruct r as [a|e]; [by exists a|discriminate]. Qed.

Lemma fmap_Ok {A B} (g : A → B) (r : result A) (b : B) :
  g <$> r = Ok b → ∃ a, r = Ok a ∧ b = g a.
Proof. destruct r as [a|e]; [|discriminate]. intros [= <-]. by exists a. Qed.

Lemma ordinal_inj i j : ordinal i = ordinal j → i = j.
Proof. unfold ordinal. intros [= H]. lia. Qed.

Lemma mask_invalid_cell_missing c :
  cell_missing c = true → mask_invalid_cell c = None.
Proof. destruct c as [x|]; simpl; [|done]. by destruct (is_finite x). Qed.

Lemma masked_invalid_numbers (l : list float) :
  Forall (λ x, is_finite x = true) l →
  masked_invalid (row_of_numbers l) = row_of_numbers l.
Proof.
  unfold masked_invalid, row_of_numbers.
  induction 1 as [|x l Hx _ IH]; [done|].
  rewrite !fmap_cons, IH. simpl. by rewrite Hx.
Qed.

Lemma zip_with_subtract_numbers minus (a b : list float) :
  zip_with (subtract_cell minus) (row_of_numbers a) (row_of_numbers b)
  = row_of_numbers (zip_with minus a b).
Proof.
  unfold row_of_numbers. revert b.
  induction a as [|x a IH]; intros [|y b]; [done..|].
  rewrite !fmap_cons. cbn [zip_with subtract_cell]. rewrite IH.
  by rewrite <-fmap_cons.
Qed.

Lemma subtract_cell_None_r minus x : subtract_cell minus x None = None.
Proof. by destruct x. Qed.

Lemma ma_subtract_missing minus (a b d : marray) i x y :
  ma_subtract minus a b = Ok d →
  a !! i = Some x → b !! i = Some y → x = None ∨ y = None →
  d !! i = Some None.
Proof.
  intros Hsub Ha Hb Hnone.
  assert (subtract_cell minus x y = None) as Hcell.
  { destruct Hnone as [->| ->]; auto using subtract_cell_None_r. }
  unfold ma_subtract in Hsub. case_bool_decide as Hlen.
  - injection Hsub as <-. by rewrite lookup_zip_with, Ha, Hb; simpl; rewrite Hcell.
  - destruct a as [|x0 [|x1 a]].
    + done.
    + injection Hsub as <-. destruct i; [|done]. injection Ha as ->.
      by rewrite list_lookup_fmap, Hb; simpl; rewrite Hcell.
    + destruct b as [|y0 [|y1 b]]; [done| |done].
      injection Hsub as <-. destruct i; [|done]. injection Hb as ->.
      injection Ha as ->. simpl. by rewrite Hcell.
Qed.

Lemma has_shape_row n t v i :
  has_shape n t v → i < n → ∃ row, data v !! i = Some row ∧ length row = t.
Proof.
  intros [Hlen Hrows] Hi.
  destruct (lookup_lt_is_Some_2 (data v) i) as [row Hrow]; [lia|].
  exists row. split; [done|]. by eapply (Forall_lookup_1 _ _ _ _ Hrows).
Qed.

Lemma progress_not_size_message i t n :
  ¬ progress_event (LogInfo (unexpected_size_message i t n)).
Proof. by intros [rest [H|H]]. Qed.

Section DifferenceFacts.

Variable ext : externals.

Lemma differences_of_missing ds var_names n r c d :
  read_row ds var_names.1 n = Ok r →
  read_row ds var_names.2 n = Ok c →
  differences_of ext ds var_names n = Ok d →
  ∀ i x y, r !! i = Some x → c !! i = Some y →
    cell_missing x || cell_missing y = true → d !! i = Some None.
Proof.
  intros Hr Hc Hd i x y Hx Hy Hmiss.
  unfold differences_of in Hd. rewrite Hr, Hc in Hd. simpl in Hd.
  apply (ma_subtract_missing _ _ _ _ i (mask_invalid_cell x)
           (mask_invalid_cell y) Hd).
  - unfold masked_invalid. by rewrite list_lookup_fmap, Hx.
  - unfold masked_invalid. by rewrite list_lookup_fmap, Hy.
  - apply orb_true_iff in Hmiss as [H|H]; auto using mask_invalid_cell_missing.
Qed.

Lemma differences_of_reads ds var_names n d :
  differences_of ext ds var_names n = Ok d →
  ∃ r c, read_row ds var_names.1 n = Ok r ∧ read_row ds var_names.2 n = Ok c.
Proof.
  unfold differences_of. intros H.
  apply bind_Ok in H as (a & Ha & H). apply fmap_Ok in Ha as (r & Hr & _).
  apply bind_Ok in H as (b & Hb & _). apply fmap_Ok in Hb as (c & Hc & _).
  eauto.
Qed.

Lemma differences_of_numbers ds var_names n (A B : list float) :
  read_row ds var_names.1 n = Ok (row_of_numbers A) →
  read_row ds var_names.2 n = Ok (row_of_numbers B) →
  length A = length B →
  Forall (λ x, is_finite x = true) A →
  Forall (λ x, is_finite x = true) B →
  differences_of ext ds var_names n
  = Ok (row_of_numbers
          (zip_with (np_subtract ext (variable_dtype ds var_names.1)
                       (variable_dtype ds var_names.2)) A B)).
Proof.
  intros HA HB Hlen HfinA HfinB.
  unfold differences_of. rewrite HA, HB. simpl.
  rewrite !masked_invalid_numbers by done.
  unfold ma_subtract, row_of_numbers. rewrite !length_fmap.
  rewrite bool_decide_true by done.
  by rewrite <-zip_with_subtract_numbers.
Qed.

(** The arrays of an iteration of the loop and the cells of their
    difference. *)
Lemma iteration_differences ds var_names i data_CMB data_NIDIS differences :
  nd_masked_invalid <$> read_array ds var_names.1 i = Ok data_CMB →
  nd_masked_invalid <$> read_array ds var_names.2 i = Ok data_NIDIS →
  nd_subtract ext data_CMB data_NIDIS = Ok differences →
  differences_of ext ds var_names i = Ok (cells differences).
Proof.
  unfold read_array, differences_of, nd_subtract.
  destruct (read_row ds var_names.1 i) as [r|e]; [|discriminate].
  destruct (read_row ds var_names.2 i) as [c|e]; [|discriminate].
  simpl. intros [= <-] [= <-]. simpl. intros H.
  apply fmap_Ok in H as (d & Hd & ->). done.
Qed.

Lemma differences_of_iteration ds var_names i d :
  differences_of ext ds var_names i = Ok d →
  ∃ data_CMB data_NIDIS differences,
    nd_masked_invalid <$> read_array ds var_names.1 i = Ok data_CMB
    ∧ nd_masked_invalid <$> read_array ds var_names.2 i = Ok data_NIDIS
    ∧ nd_subtract ext data_CMB data_NIDIS = Ok differences
    ∧ cells differences = d.
Proof.
  unfold read_array, differences_of, nd_subtract.
  destruct (read_row ds var_names.1 i) as [r|e]; [|discriminate].
  destruct (read_row ds var_names.2 i) as [c|e]; [|discriminate].
  simpl. intros H. eexists _, _, _. split; [done|]. split; [done|].
  simpl. rewrite H. done.
Qed.

(** What a call on pyplot and the plotting functions add to the trace. *)
Lemma plt_Ok trace call trace' :
  plt ext trace call = Ok trace' → trace' = (trace ++ [Plt call])%list.
Proof.
  unfold plt. intros H. apply bind_Ok in H as (u & _ & H). by injection H.
Qed.

Lemma plot_histogram_trace difference_values number_of_bins range_lower
    range_upper index_name grid_name title output_filepath trace trace' :
  _plot_and_save_histogram ext difference_values number_of_bins range_lower
    range_upper index_name grid_name title output_filepath trace = Ok trace' →
  ∃ events, trace' = (trace ++ events)%list ∧ Forall progress_event events.
Proof.
  unfold _plot_and_save_histogram, log_info. intros H.
  repeat (apply bind_Ok in H as (? & ->%plt_Ok & H)).
  apply plt_Ok in H as ->. rewrite <-!app_assoc. simpl.
  eexists. split; [reflexivity|].
  repeat (apply Forall_cons; split; [first [exact I|eexists; by right]|]).
  apply Forall_nil_2.
Qed.

Lemma plot_lines_trace expected actual difference_values grid_name varname
    output_filepath trace trace' :
  _plot_and_save_lines ext expected actual difference_values grid_name
    varname output_filepath trace = Ok trace' →
  ∃ events, trace' = (trace ++ events)%list ∧ Forall progress_event events.
Proof.
  unfold _plot_and_save_lines, log_info. intros H.
  apply bind_Ok in H as (error & _ & H).
  repeat (apply bind_Ok in H as (? & ->%plt_Ok & H)).
  apply plt_Ok in H as ->. rewrite <-!app_assoc. simpl.
  eexists. split; [reflexivity|].
  repeat (apply Forall_cons; split; [first [exact I|eexists; by right]|]).
  apply Forall_nil_2.
Qed.

Lemma plot_histogram_returns difference_values number_of_bins range_lower
    range_upper index_name grid_name title output_filepath trace :
  plots_accepted ext →
  ∃ trace',
    _plot_and_save_histogram ext difference_values number_of_bins range_lower
      range_upper index_name grid_name title output_filepath trace
    = Ok trace'.
Proof.
  intros Haccepted. unfold _plot_and_save_histogram, plt.
  repeat (rewrite Haccepted; simpl). eauto.
Qed.

Lemma plot_lines_returns expected actual difference_values error grid_name
    varname output_filepath trace :
  plots_accepted ext →
  nd_subtract ext actual expected = Ok error →
  ∃ trace',
    _plot_and_save_lines ext expected actual difference_values grid_name
      varname output_filepath trace
    = Ok trace'.
Proof.
  intros Haccepted Herror. unfold _plot_and_save_lines, _rmse, plt.
  rewrite Herror. simpl. repeat (rewrite Haccepted; simpl). eauto.
Qed.

(** What the loop leaves in the dictionary. *)
Lemma diff_entries_spec ds var_names ids : ∀ k acc diffs,
  diff_entries ext ds var_names k ids acc = Ok diffs →
  (∀ i, i < length ids → ∃ d, differences_of ext ds var_names (k + i) = Ok d)
  ∧ (∀ key d, diffs !! key = Some d →
       acc !! key = Some d
       ∨ ∃ i, i < length ids
              ∧ (key = ordinal (k + i) ∨ ids !! i = Some key)
              ∧ differences_of ext ds var_names (k + i) = Ok d).
Proof.
  induction ids as [|id rest IH]; intros k acc diffs Hloop; simpl in Hloop.
  - injection Hloop as <-. split; [simpl; lia|auto].
  - apply bind_Ok in Hloop as (d0 & Hd0 & Hloop).
    apply IH in Hloop as [Hall Hentries]. split.
    + intros [|i] Hi; [exists d0; by rewrite Nat.add_0_r|].
      destruct (Hall i) as [d Hd]; [simpl in Hi; lia|].
      exists d. by rewrite <-Nat.add_succ_comm.
    + intros key d Hkey.
      destruct (Hentries key d Hkey) as [Hacc|(i & Hi & Hwho & Hd)].
      * destruct (decide (id = key)) as [->|Hne].
        { rewrite lookup_insert_eq in Hacc. injection Hacc as <-.
          right. exists 0. rewrite Nat.add_0_r. simpl. split; [lia|auto]. }
        rewrite lookup_insert_ne in Hacc by done.
        destruct (decide (ordinal k = key)) as [<-|Hne'].
        { rewrite lookup_insert_eq in Hacc. injection Hacc as <-.
          right. exists 0. rewrite Nat.add_0_r. simpl. split; [lia|auto]. }
        rewrite lookup_insert_ne in Hacc by done. by left.
      * right. exists (S i). rewrite <-Nat.add_succ_comm. simpl.
        split; [lia|auto].
Qed.

Lemma diff_entries_untouched ds var_names ids : ∀ k acc diffs key,
  diff_entries ext ds var_names k ids acc = Ok diffs →
  key ∉ ids →
  (∀ i, i < length ids → key ≠ ordinal (k + i)) →
  diffs !! key = acc !! key.
Proof.
  induction ids as [|id rest IH]; intros k acc diffs key Hloop Hnotin Hord;
    simpl in Hloop.
  - by injection Hloop as <-.
  - apply bind_Ok in Hloop as (d0 & Hd0 & Hloop).
    apply not_elem_of_cons in Hnotin as [Hne Hnotin].
    rewrite (IH _ _ _ key Hloop Hnotin).
    + rewrite lookup_insert_ne by done. rewrite lookup_insert_ne; [done|].
      specialize (Hord 0). rewrite Nat.add_0_r in Hord.
      intros Heq. apply Hord; [simpl; lia|done].
    + intros i Hi. rewrite Nat.add_succ_comm. apply Hord. simpl; lia.
Qed.

Lemma diff_entries_lookup ds var_names ids : ∀ k acc diffs i id d,
  diff_entries ext ds var_names k ids acc = Ok diffs →
  ids !! i = Some id →
  differences_of ext ds var_names (k + i) = Ok d →
  ((∀ j, i < j → ids !! j ≠ Some (ordinal (k + i))) →
   diffs !! ordinal (k + i) = Some d)
  ∧ ((∀ j, i < j → ids !! j ≠ Some id) →
     (∀ j, i < j < length ids → id ≠ ordinal (k + j)) →
     diffs !! id = Some d).
Proof.
  induction ids as [|id0 rest IH]; intros k acc diffs i id d Hloop Hid Hd;
    [done|].
  simpl in Hloop. apply bind_Ok in Hloop as (d0 & Hd0 & Hloop).
  destruct i as [|i]; simpl in Hid.
  - injection Hid as ->. rewrite Nat.add_0_r in *.
    rewrite Hd0 in Hd. injection Hd as ->. split.
    + intros Hlater.
      rewrite (diff_entries_untouched _ _ _ _ _ _ (ordinal k) Hloop).
      * destruct (decide (id = ordinal k)) as [->|Hne];
          [by rewrite lookup_insert_eq|].
        rewrite lookup_insert_ne by done. by rewrite lookup_insert_eq.
      * intros Hin. apply list_elem_of_lookup in Hin as [j Hj].
        by apply (Hlater (S j)); [lia|].
      * intros j _ Heq. apply ordinal_inj in Heq. lia.
    + intros Hlater Hord.
      rewrite (diff_entries_untouched _ _ _ _ _ _ id Hloop).
      * by rewrite lookup_insert_eq.
      * intros Hin. apply list_elem_of_lookup in Hin as [j Hj].
        by apply (Hlater (S j)); [lia|].
      * intros j Hj. rewrite Nat.add_succ_comm. apply Hord. simpl. lia.
  - rewrite <-Nat.add_succ_comm in *.
    destruct (IH _ _ _ _ _ _ Hloop Hid Hd) as [Hord Hkey]. split.
    + intros Hlater. apply Hord. intros j Hj. apply (Hlater (S j)). lia.
    + intros Hlater Hlater'. apply Hkey.
      * intros j Hj. apply (Hlater (S j)). lia.
      * intros j Hj. rewrite Nat.add_succ_comm. apply Hlater'. simpl. lia.
Qed.

Lemma diff_entries_dom ds var_names ids : ∀ k acc diffs key,
  diff_entries ext ds var_names k ids acc = Ok diffs →
  is_Some (diffs !! key)
  ↔ is_Some (acc !! key) ∨ key ∈ ids
    ∨ ∃ i, i < length ids ∧ key = ordinal (k + i).
Proof.
  induction ids as [|id rest IH]; intros k acc diffs key Hloop; simpl in Hloop.
  - injection Hloop as <-. split; [auto|].
    intros [H|[H|(i & Hi & _)]]; [done|by apply elem_of_nil in H|simpl in Hi; lia].
  - apply bind_Ok in Hloop as (d0 & Hd0 & Hloop).
    rewrite (IH _ _ _ key Hloop). rewrite !lookup_insert_is_Some'.
    rewrite elem_of_cons. split.
    + intros [[->|[Heq|H]]|[H|(i & Hi & ->)]]; auto.
      * right; right. exists 0. rewrite Nat.add_0_r. simpl. split; [lia|done].
      * right; right. exists (S i). rewrite <-Nat.add_succ_comm. simpl.
        split; [lia|done].
    + intros [H|[[->|H]|(i & Hi & ->)]]; auto.
      destruct i as [|i].
      * rewrite Nat.add_0_r. auto.
      * right; right. exists i. rewrite Nat.add_succ_comm. simpl in Hi.
        split; [lia|done].
Qed.

Lemma differences_of_wf ds var_names n :
  store_wf ds →
  is_Some (variables ds !! var_names.1) →
  is_Some (variables ds !! var_names.2) →
  n < length (divisions ds) →
  ∃ d, differences_of ext ds var_names n = Ok d ∧ length d = times_size ds.
Proof.
  intros Hwf [v1 Hv1] [v2 Hv2] Hn.
  destruct (has_shape_row _ _ _ n (Hwf _ _ Hv1) Hn) as (r & Hr & Hlenr).
  destruct (has_shape_row _ _ _ n (Hwf _ _ Hv2) Hn) as (c & Hc & Hlenc).
  unfold differences_of, read_row. rewrite Hv1, Hv2, Hr, Hc. simpl.
  unfold ma_subtract, masked_invalid. rewrite !length_fmap.
  rewrite bool_decide_true by congruence.
  eexists. split; [done|].
  rewrite length_zip_with, !length_fmap. lia.
Qed.

Lemma diff_entries_returns ds var_names ids : ∀ k acc,
  (∀ i, i < length ids → ∃ d, differences_of ext ds var_names (k + i) = Ok d) →
  ∃ diffs, diff_entries ext ds var_names k ids acc = Ok diffs.
Proof.
  induction ids as [|id rest IH]; intros k acc Hall; simpl; [eauto|].
  destruct (Hall 0) as [d Hd]; [simpl; lia|]. rewrite Nat.add_0_r in Hd.
  rewrite Hd. simpl. apply IH. intros i Hi.
  rewrite Nat.add_succ_comm. apply Hall. simpl. lia.
Qed.

(** A run of the loop that completes leaves the dictionary of its
    iterations, and adds progress messages and calls on pyplot to the
    trace. *)
Lemma diff_loop_completed ds index var_names ids : ∀ k acc trace diffs trace',
  diff_loop ext ds index var_names k ids acc trace = Ok (diffs, trace') →
  diff_entries ext ds var_names k ids acc = Ok diffs
  ∧ ∃ events, trace' = (trace ++ events)%list ∧ Forall progress_event events.
Proof.
  induction ids as [|id rest IH]; intros k acc trace diffs trace' Hloop.
  - injection Hloop as <- <-. split; [done|].
    exists []. by rewrite app_nil_r.
  - cbn [diff_loop] in Hloop.
    apply bind_Ok in Hloop as (data_CMB & HCMB & Hloop).
    apply bind_Ok in Hloop as (data_NIDIS & HNIDIS & Hloop).
    apply bind_Ok in Hloop as (differences & Hdifferences & Hloop).
    apply bind_Ok in Hloop as (trace1 & Hhistogram & Hloop).
    apply bind_Ok in Hloop as (trace2 & Hlines & Hloop).
    apply IH in Hloop as (Hentries & events & -> & Hevents).
    apply plot_histogram_trace in Hhistogram as (events1 & -> & Hevents1).
    apply plot_lines_trace in Hlines as (events2 & -> & Hevents2).
    split.
    + cbn [diff_entries].
      by rewrite (iteration_differences _ _ _ _ _ _ HCMB HNIDIS Hdifferences).
    + unfold log_info. rewrite <-!app_assoc. eexists. split; [reflexivity|].
      apply Forall_app. split.
      { apply Forall_singleton. eexists. by left. }
      by repeat (apply Forall_app; split).
Qed.

(** When pyplot accepts every call, the loop completes as soon as every
    iteration has its difference. *)
Lemma diff_loop_returns ds index var_names ids :
  plots_accepted ext → ∀ k acc trace diffs,
  diff_entries ext ds var_names k ids acc = Ok diffs →
  ∃ trace', diff_loop ext ds index var_names k ids acc trace = Ok (diffs, trace').
Proof.
  intros Haccepted.
  induction ids as [|id rest IH]; intros k acc trace diffs Hentries.
  - injection Hentries as <-. by eexists.
  - cbn [diff_entries] in Hentries.
    apply bind_Ok in Hentries as (d & Hd & Hentries).
    apply differences_of_iteration in Hd
      as (data_CMB & data_NIDIS & differences & HCMB & HNIDIS & Hsub & <-).
    cbn [diff_loop]. rewrite HCMB, HNIDIS. simpl. rewrite Hsub. simpl.
    match goal with
    | |- context [_plot_and_save_histogram ext ?a ?b ?c ?d ?e ?f ?g ?h ?t] =>
        destruct (plot_histogram_returns a b c d e f g h t Haccepted)
          as [trace1 ->]
    end.
    simpl.
    match goal with
    | |- context [_plot_and_save_lines ext ?a ?b ?c ?d ?e ?f ?t] =>
        destruct (plot_lines_returns a b c differences d e f t Haccepted Hsub)
          as [trace2 ->]
    end.
    simpl. by apply IH.
Qed.

Lemma compute_diffs_completed ds index var_names trace diffs trace' :
  compute_diffs ext ds index var_names trace = Ok (diffs, trace') →
  diff_dictionary ext ds var_names = Ok diffs
  ∧ ∃ events, trace' = (trace ++ events)%list ∧ Forall progress_event events.
Proof.
  unfold compute_diffs, log_info. intros H.
  apply diff_loop_completed in H as (Hentries & events & -> & Hevents).
  split; [done|]. rewrite <-app_assoc. eexists. split; [reflexivity|].
  apply Forall_cons. split; [eexists; by left|done].
Qed.

Lemma compute_diffs_returns ds index var_names trace diffs :
  plots_accepted ext →
  diff_dictionary ext ds var_names = Ok diffs →
  ∃ trace', compute_diffs ext ds index var_names trace = Ok (diffs, trace').
Proof. intros Haccepted H. by apply diff_loop_returns. Qed.

(** On a store of the declared shape that has both variables, every
    iteration has its difference. *)
Lemma diff_dictionary_returns ds var_names :
  store_wf ds →
  is_Some (variables ds !! var_names.1) →
  is_Some (variables ds !! var_names.2) →
  ∃ diffs, diff_dictionary ext ds var_names = Ok diffs.
Proof.
  intros Hwf H1 H2. apply diff_entries_returns. intros i Hi.
  destruct (differences_of_wf ds var_names i Hwf H1 H2 Hi) as (d & Hd & _).
  eauto.
Qed.

Lemma diff_dictionary_entries ds var_names diffs :
  diff_dictionary ext ds var_names = Ok diffs →
  (∀ n, n < length (divisions ds) →
     ∃ d, differences_of ext ds var_names n = Ok d)
  ∧ (∀ key d, diffs !! key = Some d →
       ∃ n, n < length (divisions ds)
            ∧ (key = ordinal n ∨ divisions ds !! n = Some key)
            ∧ differences_of ext ds var_names n = Ok d).
Proof.
  intros Hloop. apply diff_entries_spec in Hloop as [Hall Hentries].
  split; [done|]. intros key d Hkey.
  destruct (Hentries key d Hkey) as [Hempty|H]; [by rewrite lookup_empty in Hempty|].
  done.
Qed.

Lemma diff_dictionary_keys ds var_names diffs :
  diff_dictionary ext ds var_names = Ok diffs →
  ∀ key, is_Some (diffs !! key)
         ↔ key ∈ divisions ds
           ∨ ∃ n, n < length (divisions ds) ∧ key = ordinal n.
Proof.
  intros Hdiffs key. unfold diff_dictionary in Hdiffs.
  rewrite (diff_entries_dom _ _ _ _ _ _ key Hdiffs). rewrite lookup_empty.
  split; [intros [[? [=]]|H]|]; auto.
Qed.

Lemma diff_dictionary_both_keys ds var_names diffs :
  diff_dictionary ext ds var_names = Ok diffs →
  keys_unambiguous (divisions ds) →
  ∀ n id, divisions ds !! n = Some id →
    ∃ d, differences_of ext ds var_names n = Ok d
         ∧ diffs !! ordinal n = Some d
         ∧ diffs !! id = Some d.
Proof.
  intros Hdiffs [Hnodup Hord] n id Hid.
  pose proof (lookup_lt_Some _ _ _ Hid) as Hn.
  destruct (diff_dictionary_entries _ _ _ Hdiffs) as [Hall _].
  destruct (Hall n Hn) as [d Hd]. exists d. split; [done|].
  destruct (diff_entries_lookup _ _ _ 0 _ _ n id d Hdiffs Hid Hd) as [H1 H2].
  split.
  - apply H1. intros j Hj Hlook. simpl in Hlook.
    specialize (Hord n j Hn Hlook). lia.
  - apply H2.
    + intros j Hj Hlook.
      pose proof (NoDup_lookup _ _ _ _ Hnodup Hid Hlook). lia.
    + intros j [Hj Hlen] ->. simpl in Hid.
      specialize (Hord j n Hlen Hid). lia.
Qed.

(** C5: a computation that completes has a difference for every division,
    and every entry of its dictionary is the difference of a division,
    missing at every position where the reference or the candidate series
    of that division is missing. *)
Theorem compute_diffs_propagates_missing ds index var_names trace diffs trace' :
  compute_diffs ext ds index var_names trace = Ok (diffs, trace') →
  (∀ n, n < length (divisions ds) →
     ∃ r c d,
       read_row ds var_names.1 n = Ok r
       ∧ read_row ds var_names.2 n = Ok c
       ∧ differences_of ext ds var_names n = Ok d
       ∧ ∀ i x y, r !! i = Some x → c !! i = Some y →
           cell_missing x || cell_missing y = true → d !! i = Some None)
  ∧ (∀ key d, diffs !! key = Some d →
       ∃ n r c,
         n < length (divisions ds)
         ∧ (key = ordinal n ∨ divisions ds !! n = Some key)
         ∧ read_row ds var_names.1 n = Ok r
         ∧ read_row ds var_names.2 n = Ok c
         ∧ ∀ i x y, r !! i = Some x → c !! i = Some y →
             cell_missing x || cell_missing y = true → d !! i = Some None).
Proof.
  intros Hdiffs. apply compute_diffs_completed in Hdiffs as [Hdiffs _].
  apply diff_dictionary_entries in Hdiffs as [Hall Hentries].
  split.
  - intros n Hn. destruct (Hall n Hn) as [d Hd].
    destruct (differences_of_reads _ _ _ _ Hd) as (r & c & Hr & Hc).
    exists r, c, d. eauto 6 using differences_of_missing.
  - intros key d Hkey.
    destruct (Hentries key d Hkey) as (n & Hn & Hwho & Hd).
    destruct (differences_of_reads _ _ _ _ Hd) as (r & c & Hr & Hc).
    exists n, r, c. eauto 8 using differences_of_missing.
Qed.

(** C8 (as the code has it): when no identifier is repeated and none is the
    ordinal position of another division, the dictionary of a computation
    that completes has exactly the ordinal positions and the identifiers as
    keys, and both keys of a division give the difference of that
    division. *)
Theorem compute_diffs_both_keys ds index var_names trace diffs trace' :
  compute_diffs ext ds index var_names trace = Ok (diffs, trace') →
  keys_unambiguous (divisions ds) →
  (∀ key, is_Some (diffs !! key)
          ↔ key ∈ divisions ds
            ∨ ∃ n, n < length (divisions ds) ∧ key = ordinal n)
  ∧ ∀ n id, divisions ds !! n = Some id →
      ∃ d, differences_of ext ds var_names n = Ok d
           ∧ diffs !! ordinal n = Some d
           ∧ diffs !! id = Some d.
Proof.
  intros Hdiffs Hkeys. apply compute_diffs_completed in Hdiffs as [Hdiffs _].
  split; [by apply (diff_dictionary_keys ds var_names)
         |by apply diff_dictionary_both_keys].
Qed.

End DifferenceFacts.

Lemma scenario_keys_unambiguous : keys_unambiguous (divisions scenario).
Proof.
  split.
  - by_compute.
  - intros i j Hi Hj. simpl in *.
    destruct j as [|[|j]]; simpl in Hj; [| |done];
      injection Hj as Hj; lia.
Qed.

(** C1 (as the code has it): the difference of a division is the reference
    series minus the candidate series, position by position, in the
    subtraction numpy has for the datatypes of the two variables, when the
    two series have the same length and no missing value; in the scenario,
    whose variables are f8, a computation that completes has the
    differences [0, 1, 1, -1] for division 101 and [0, 0, 0, -1] for
    division 102, under the identifier and under the ordinal position, and
    the computation completes when pyplot accepts every call. *)
Theorem differences_reference_minus_candidate :
  (∀ ext ds var_names n (A B : list float),
     read_row ds var_names.1 n = Ok (row_of_numbers A) →
     read_row ds var_names.2 n = Ok (row_of_numbers B) →
     length A = length B →
     Forall (λ x, is_finite x = true) A →
     Forall (λ x, is_finite x = true) B →
     differences_of ext ds var_names n
     = Ok (row_of_numbers
             (zip_with (np_subtract ext (variable_dtype ds var_names.1)
                          (variable_dtype ds var_names.2)) A B)))
  ∧ ∀ ext index trace,
      f8_arithmetic ext →
      (∀ diffs trace',
         compute_diffs ext scenario index ("cmb_zndx", "zindex") trace
         = Ok (diffs, trace') →
         diffs !! KInt 101 = Some (row_of_numbers [0; 1; 1; (-1)]%float)
         ∧ diffs !! KInt 102 = Some (row_of_numbers [0; 0; 0; (-1)]%float)
         ∧ diffs !! ordinal 0 = Some (row_of_numbers [0; 1; 1; (-1)]%float)
         ∧ diffs !! ordinal 1 = Some (row_of_numbers [0; 0; 0; (-1)]%float))
      ∧ (plots_accepted ext →
         ∃ diffs trace',
           compute_diffs ext scenario index ("cmb_zndx", "zindex") trace
           = Ok (diffs, trace')).
Proof.
  split; [apply differences_of_numbers|].
  intros ext index trace Hf8.
  assert (differences_of ext scenario ("cmb_zndx", "zindex") 0
          = Ok (row_of_numbers [0; 1; 1; (-1)]%float)) as Hfirst.
  { rewrite (differences_of_numbers ext scenario ("cmb_zndx", "zindex") 0
               [1; 2; 3; 4]%float [1; 1; 2; 5]%float);
      [|reflexivity|reflexivity|reflexivity|repeat constructor..].
    change (variable_dtype scenario ("cmb_zndx", "zindex").1) with "f8".
    change (variable_dtype scenario ("cmb_zndx", "zindex").2) with "f8".
    simpl. rewrite !Hf8. vm_compute. reflexivity. }
  assert (differences_of ext scenario ("cmb_zndx", "zindex") 1
          = Ok (row_of_numbers [0; 0; 0; (-1)]%float)) as Hsecond.
  { rewrite (differences_of_numbers ext scenario ("cmb_zndx", "zindex") 1
               [5; 6; 7; 8]%float [5; 6; 7; 9]%float);
      [|reflexivity|reflexivity|reflexivity|repeat constructor..].
    change (variable_dtype scenario ("cmb_zndx", "zindex").1) with "f8".
    change (variable_dtype scenario ("cmb_zndx", "zindex").2) with "f8".
    simpl. rewrite !Hf8. vm_compute. reflexivity. }
  split.
  - intros diffs trace' Hrun.
    apply compute_diffs_completed in Hrun as [Hdiffs _].
    pose proof (diff_dictionary_both_keys ext scenario
                  ("cmb_zndx", "zindex") diffs Hdiffs
                  scenario_keys_unambiguous) as Hkeys.
    destruct (Hkeys 0 (KInt 101) eq_refl) as (d0 & Hd0 & Hord0 & Hid0).
    destruct (Hkeys 1 (KInt 102) eq_refl) as (d1 & Hd1 & Hord1 & Hid1).
    rewrite Hfirst in Hd0. injection Hd0 as <-.
    rewrite Hsecond in Hd1. injection Hd1 as <-.
    done.
  - intros Haccepted.
    destruct (diff_entries_returns ext scenario ("cmb_zndx", "zindex")
                (divisions scenario) 0 ∅) as [diffs Hdiffs].
    { intros i Hi. simpl in Hi.
      destruct i as [|[|i]]; [by eexists|by eexists|lia]. }
    exists diffs. by apply compute_diffs_returns.
Qed.

Lemma differences_reference_minus_candidate_witness :
  differences_of binary64_libraries scenario ("cmb_zndx", "zindex") 0
  = Ok (row_of_numbers [0; 1; 1; (-1)]%float)
  ∧ ∃ diffs trace,
      compute_diffs binary64_libraries scenario "Z-Index"
        ("cmb_zndx", "zindex") [] = Ok (diffs, trace)
      ∧ diffs !! KInt 102 = Some (row_of_numbers [0; 0; 0; (-1)]%float).
Proof.
  destruct differences_reference_minus_candidate as [Hgeneral Hscenario].
  split.
  - apply (Hgeneral binary64_libraries scenario ("cmb_zndx", "zindex") 0
             [1; 2; 3; 4]%float [1; 1; 2; 5]%float).
    + reflexivity.
    + reflexivity.
    + reflexivity.
    + repeat constructor.
    + repeat constructor.
  - destruct (Hscenario binary64_libraries "Z-Index" []) as [Hentries Hreturns].
    { intros x y. reflexivity. }
    destruct Hreturns as (diffs & trace & Hrun).
    { intros trace call. reflexivity. }
    exists diffs, trace. split; [exact Hrun|].
    by destruct (Hentries diffs trace Hrun) as (_ & H102 & _).
Defined.

(** C1, as stated, fails in its own scenario: the differences are not
    [0, -1, -1, 1] and [0, 0, 0, 1]. *)
Lemma scenario_not_candidate_minus_reference :
  ¬ ∃ diffs trace,
      compute_diffs binary64_libraries scenario "Z-Index"
        ("cmb_zndx", "zindex") [] = Ok (diffs, trace)
      ∧ diffs !! KInt 101 = Some (row_of_numbers [0; (-1); (-1); 1]%float)
      ∧ diffs !! KInt 102 = Some (row_of_numbers [0; 0; 0; 1]%float).
Proof.
  intros (diffs & trace & Hdiffs & _ & H102).
  apply compute_diffs_completed in Hdiffs as [Hdiffs _].
  vm_compute in Hdiffs. injection Hdiffs as <-.
  apply (f_equal (λ o, match o with
                       | Some [_; _; _; Some x] => (x <? 0)%float
                       | _ => false
                       end)) in H102.
  vm_compute in H102. discriminate.
Qed.

Lemma compute_diffs_propagates_missing_witness :
  ∃ diffs trace,
    compute_diffs binary64_libraries gappy_store "X"
      ("reference", "candidate") [] = Ok (diffs, trace)
    ∧ diffs !! KInt 101 = Some [None; None; Some (-2)%float]
    ∧ ∀ key d, diffs !! key = Some d →
        ∃ n r c,
          n < 1
          ∧ (key = ordinal n ∨ [KInt 101] !! n = Some key)
          ∧ read_row gappy_store "reference" n = Ok r
          ∧ read_row gappy_store "candidate" n = Ok c
          ∧ ∀ i x y, r !! i = Some x → c !! i = Some y →
              cell_missing x || cell_missing y = true → d !! i = Some None.
Proof.
  destruct (compute_diffs binary64_libraries gappy_store "X"
              ("reference", "candidate") []) as [[diffs trace]|e] eqn:Hrun;
    [|vm_compute in Hrun; discriminate].
  exists diffs, trace. split; [reflexivity|].
  destruct (compute_diffs_propagates_missing binary64_libraries gappy_store
              "X" ("reference", "candidate") [] diffs trace Hrun)
    as [_ Hentries].
  split; [|exact Hentries].
  apply compute_diffs_completed in Hrun as [Hrun _].
  vm_compute in Hrun. injection Hrun as <-. vm_compute. reflexivity.
Defined.

Lemma compute_diffs_both_keys_witness :
  ∃ diffs trace,
    compute_diffs binary64_libraries scenario "Z-Index"
      ("cmb_zndx", "zindex") [] = Ok (diffs, trace)
    ∧ ∀ n id, [KInt 101; KInt 102] !! n = Some id →
        ∃ d, differences_of binary64_libraries scenario
               ("cmb_zndx", "zindex") n = Ok d
             ∧ diffs !! ordinal n = Some d
             ∧ diffs !! id = Some d.
Proof.
  destruct (compute_diffs binary64_libraries scenario "Z-Index"
              ("cmb_zndx", "zindex") []) as [[diffs trace]|e] eqn:Hrun;
    [|vm_compute in Hrun; discriminate].
  exists diffs, trace. split; [reflexivity|].
  apply (compute_diffs_both_keys binary64_libraries scenario "Z-Index"
           ("cmb_zndx", "zindex") [] diffs trace Hrun).
  split.
  - by_compute.
  - intros i j Hi Hj. simpl in *.
    destruct j as [|[|j]]; simpl in Hj; [| |done];
      injection Hj as Hj; lia.
Defined.

(** C8, as stated for every store, fails: in [overlapping_store] the entry
    under the identifier of the first division is the difference of the
    second one. *)
Lemma overlapping_store_identifier_lookup :
  ¬ ∀ ext ds index var_names trace diffs trace',
      compute_diffs ext ds index var_names trace = Ok (diffs, trace') →
      ∀ n id, divisions ds !! n = Some id →
        ∃ d, differences_of ext ds var_names n = Ok d
             ∧ diffs !! ordinal n = Some d
             ∧ diffs !! id = Some d.
Proof.
  intros Hclaim.
  destruct (compute_diffs binary64_libraries overlapping_store "X"
              ("reference", "candidate") []) as [[diffs trace]|e] eqn:Hrun;
    [|vm_compute in Hrun; discriminate].
  destruct (Hclaim _ _ _ _ _ _ _ Hrun 0 (KInt 1) eq_refl)
    as (d & Hd & _ & Hid).
  apply compute_diffs_completed in Hrun as [Hrun _].
  vm_compute in Hrun. injection Hrun as <-.
  vm_compute in Hd. injection Hd as <-.
  apply (f_equal (λ o, match o with
                       | Some [Some x] => (x <? 2)%float
                       | _ => false
                       end)) in Hid.
  vm_compute in Hid. discriminate.
Qed.

(** * Facts about provisioning and writing *)

Lemma assign_row_inv ds name i d ds' :
  assign_row ds name i d = Ok ds' →
  ∃ v row,
    variables ds !! name = Some v
    ∧ data v !! i = Some row
    ∧ length row = length d
    ∧ ds' = Dataset (divisions ds) (times_size ds)
              (<[name := NcVariable (datatype v) (dimensions v) (fill_value v)
                           (<[i := d]> (data v))]> (variables ds)).
Proof.
  unfold assign_row. intros H.
  destruct (variables ds !! name) as [v|]; [|done].
  destruct (data v !! i) as [row|] eqn:Hrow; [|done].
  case_bool_decide; [|done]. injection H as <-. by exists v, row.
Qed.

Lemma assign_row_returns ds name i d row :
  row_of ds name i = Some row → length row = length d →
  ∃ ds', assign_row ds name i d = Ok ds'.
Proof.
  unfold row_of, assign_row. intros Hrow Hlen.
  destruct (variables ds !! name) as [v|]; [|done]. simpl in Hrow.
  rewrite Hrow. rewrite bool_decide_true by done. eauto.
Qed.

Lemma assign_row_same ds name i d :
  row_of ds name i = Some d → assign_row ds name i d = Ok ds.
Proof.
  unfold row_of, assign_row. intros Hrow.
  destruct (variables ds !! name) as [v|] eqn:Hv; [|done]. simpl in Hrow.
  rewrite Hrow. rewrite bool_decide_true by done.
  rewrite list_insert_id by done.
  destruct v; simpl. rewrite insert_id by done. by destruct ds.
Qed.

Lemma assign_row_row ds name i d ds' j :
  assign_row ds name i d = Ok ds' →
  row_of ds' name j = if decide (j = i) then Some d else row_of ds name j.
Proof.
  intros H. apply assign_row_inv in H as (v & row & Hv & Hrow & Hlen & ->).
  unfold row_of. simpl. rewrite lookup_insert_eq, Hv. simpl.
  case_decide as Hj.
  - subst j. apply list_lookup_insert_eq. by eapply lookup_lt_Some.
  - by apply list_lookup_insert_ne.
Qed.

Lemma assign_row_frame ds name i d ds' :
  assign_row ds name i d = Ok ds' →
  divisions ds' = divisions ds
  ∧ times_size ds' = times_size ds
  ∧ (∀ other, other ≠ name → variables ds' !! other = variables ds !! other)
  ∧ ∃ v v', variables ds !! name = Some v
            ∧ variables ds' !! name = Some v'
            ∧ same_declaration v v'.
Proof.
  intros H. apply assign_row_inv in H as (v & row & Hv & Hrow & Hlen & ->).
  simpl. repeat split.
  - intros other Hne. by rewrite lookup_insert_ne.
  - exists v. eexists. split; [done|]. split; [apply lookup_insert_eq|].
    repeat split. simpl. apply list_eq. intros j.
    rewrite !list_lookup_fmap.
    destruct (decide (j = i)) as [->|Hne].
    + rewrite list_lookup_insert_eq by (by eapply lookup_lt_Some).
      rewrite Hrow. simpl. by rewrite Hlen.
    + by rewrite list_lookup_insert_ne.
Qed.

Lemma same_declaration_refl v : same_declaration v v.
Proof. done. Qed.

Lemma same_declaration_trans v1 v2 v3 :
  same_declaration v1 v2 → same_declaration v2 v3 → same_declaration v1 v3.
Proof.
  intros (? & ? & ? & ?) (? & ? & ? & ?). repeat split; congruence.
Qed.

Lemma write_loop_frame name diffs ids : ∀ k ds tr ds' tr',
  write_loop name diffs k ids ds tr = Ok (ds', tr') →
  divisions ds' = divisions ds
  ∧ times_size ds' = times_size ds
  ∧ (∀ other, other ≠ name → variables ds' !! other = variables ds !! other)
  ∧ ∀ v, variables ds !! name = Some v →
      ∃ v', variables ds' !! name = Some v' ∧ same_declaration v v'.
Proof.
  induction ids as [|id rest IH]; intros k ds tr ds' tr' Hloop; simpl in Hloop.
  - injection Hloop as <- <-. repeat split; eauto using same_declaration_refl.
  - destruct (diffs !! ordinal k) as [d|]; [|by eapply IH].
    case_bool_decide; [|by eapply IH].
    apply bind_Ok in Hloop as (ds1 & Hassign & Hloop).
    apply IH in Hloop as (Hdiv & Htime & Hother & Hvar).
    apply assign_row_frame in Hassign
      as (Hdiv1 & Htime1 & Hother1 & v1 & v1' & Hv1 & Hv1' & Hsame).
    split; [congruence|]. split; [congruence|]. split.
    + intros other Hne. by rewrite Hother, Hother1.
    + intros v Hv. rewrite Hv1 in Hv. injection Hv as <-.
      destruct (Hvar v1' Hv1') as (v' & Hv' & Hsame').
      exists v'. eauto using same_declaration_trans.
Qed.

Lemma write_loop_rows name diffs ids : ∀ k ds tr ds' tr',
  write_loop name diffs k ids ds tr = Ok (ds', tr') →
  ∀ i,
    (∀ d, written diffs (times_size ds) k (length ids) i d →
          row_of ds' name i = Some d)
    ∧ ((∀ d, ¬ written diffs (times_size ds) k (length ids) i d) →
       row_of ds' name i = row_of ds name i).
Proof.
  unfold written.
  induction ids as [|id rest IH]; intros k ds tr ds' tr' Hloop i;
    simpl in Hloop.
  - injection Hloop as <- <-. split; [simpl; lia|done].
  - destruct (diffs !! ordinal k) as [d0|] eqn:Hd0.
    + case_bool_decide as Hsize.
      * apply bind_Ok in Hloop as (ds1 & Hassign & Hloop).
        pose proof (assign_row_frame _ _ _ _ _ Hassign) as (_ & Htime & _).
        pose proof (assign_row_row _ _ _ _ _ i Hassign) as Hrow.
        destruct (IH _ _ _ _ _ Hloop i) as [Hw Hnw]. rewrite Htime in Hw, Hnw.
        split.
        { intros d (Hi & Hd & Hlen). destruct (decide (i = k)) as [->|Hne].
          - rewrite Hd0 in Hd. injection Hd as ->.
            rewrite Hnw; [done|lia].
          - apply Hw. simpl in Hi. split; [lia|done]. }
        { intros Hnot. rewrite Hnw.
          - rewrite Hrow. case_decide as Heq; [|done]. subst i.
            exfalso. apply (Hnot d0). simpl. split; [lia|done].
          - intros d (Hi & Hd). apply (Hnot d). simpl. split; [lia|done]. }
      * destruct (IH _ _ _ _ _ Hloop i) as [Hw Hnw]. split.
        { intros d (Hi & Hd & Hlen). apply Hw.
          destruct (decide (i = k)) as [->|Hne]; [congruence|].
          simpl in Hi. split; [lia|done]. }
        { intros Hnot. apply Hnw. intros d (Hi & Hd).
          apply (Hnot d). simpl. split; [lia|done]. }
    + destruct (IH _ _ _ _ _ Hloop i) as [Hw Hnw]. split.
      { intros d (Hi & Hd & Hlen). apply Hw.
        destruct (decide (i = k)) as [->|Hne]; [congruence|].
        simpl in Hi. split; [lia|done]. }
      { intros Hnot. apply Hnw. intros d (Hi & Hd).
        apply (Hnot d). simpl. split; [lia|done]. }
Qed.

Lemma loop_event_step name diffs t k n e :
  loop_event name diffs t k (S n) e
  ↔ (∃ d, diffs !! ordinal k = Some d
          ∧ ((length d = t ∧ e = AssignRow name k d)
             ∨ (length d ≠ t
                ∧ e = LogInfo (unexpected_size_message k t (length d)))))
    ∨ loop_event name diffs t (S k) n e.
Proof.
  unfold loop_event. split.
  - intros (i & d & Hi & Hd & He).
    destruct (decide (i = k)) as [->|Hne]; [left; eauto|].
    right. exists i, d. split; [lia|done].
  - intros [(d & Hd & He)|(i & d & Hi & Hd & He)].
    + exists k, d. split; [lia|done].
    + exists i, d. split; [lia|done].
Qed.

Lemma write_loop_trace name diffs ids : ∀ k ds tr ds' tr',
  write_loop name diffs k ids ds tr = Ok (ds', tr') →
  ∃ suffix,
    tr' = (tr ++ suffix)%list
    ∧ ∀ e, e ∈ suffix
           ↔ loop_event name diffs (times_size ds) k (length ids) e.
Proof.
  induction ids as [|id rest IH]; intros k ds tr ds' tr' Hloop; simpl in Hloop.
  - injection Hloop as <- <-. exists []. split; [by rewrite app_nil_r|].
    intros e. split; [by intros ?%elem_of_nil|].
    intros (i & d & Hi & _). simpl in Hi. lia.
  - destruct (diffs !! ordinal k) as [d0|] eqn:Hd0.
    + case_bool_decide as Hsize.
      * apply bind_Ok in Hloop as (ds1 & Hassign & Hloop).
        pose proof (assign_row_frame _ _ _ _ _ Hassign) as (_ & Htime & _).
        apply IH in Hloop as (suffix & -> & Hsuffix). rewrite Htime in Hsuffix.
        exists (AssignRow name k d0 :: suffix).
        split; [by rewrite <-app_assoc|].
        intros e. rewrite elem_of_cons, Hsuffix. simpl.
        rewrite loop_event_step, Hd0. split.
        { intros [->|H]; [left; eauto|by right]. }
        { intros [(d & [= <-] & [[_ ->]|[Hne _]])|H]; [by left|done|by right]. }
      * apply IH in Hloop as (suffix & -> & Hsuffix).
        exists (LogInfo (unexpected_size_message k (times_size ds) (length d0))
                  :: suffix).
        split; [by rewrite <-app_assoc|].
        intros e. rewrite elem_of_cons, Hsuffix. simpl.
        rewrite loop_event_step, Hd0. split.
        { intros [->|H]; [left; eauto|by right]. }
        { intros [(d & [= <-] & [[Heq _]|[_ ->]])|H]; [done|by left|by right]. }
    + apply IH in Hloop as (suffix & -> & Hsuffix). exists suffix.
      split; [done|]. intros e. rewrite Hsuffix. simpl.
      rewrite loop_event_step, Hd0. split; [by right|].
      by intros [(d & [=] & _)|H].
Qed.

Lemma write_loop_returns name diffs ids : ∀ k ds tr,
  (∀ i d, written diffs (times_size ds) k (length ids) i d →
     ∃ row, row_of ds name i = Some row ∧ length row = length d) →
  ∃ ds' tr', write_loop name diffs k ids ds tr = Ok (ds', tr').
Proof.
  unfold written.
  induction ids as [|id rest IH]; intros k ds tr Hrows; simpl; [eauto|].
  assert (∀ ds1, times_size ds1 = times_size ds →
            (∀ i, i ≠ k → row_of ds1 name i = row_of ds name i) →
            ∀ i d, S k ≤ i < S k + length rest
                   ∧ diffs !! ordinal i = Some d
                   ∧ length d = times_size ds1 →
              ∃ row, row_of ds1 name i = Some row ∧ length row = length d)
    as Hnext.
  { intros ds1 Htime Hsame i d (Hi & Hd & Hlen).
    rewrite Hsame by lia. apply Hrows. simpl. split; [lia|].
    split; [done|congruence]. }
  destruct (diffs !! ordinal k) as [d0|] eqn:Hd0; [|by apply IH, Hnext].
  case_bool_decide as Hsize; [|by apply IH, Hnext].
  destruct (Hrows k d0) as (row & Hrow & Hlen); [simpl; split; [lia|done]|].
  destruct (assign_row_returns _ _ _ _ _ Hrow Hlen) as [ds1 Hassign].
  rewrite Hassign. simpl. apply IH, Hnext.
  - by apply assign_row_frame in Hassign as (_ & ? & _).
  - intros i Hne. rewrite (assign_row_row _ _ _ _ _ i Hassign).
    by rewrite decide_False.
Qed.

Lemma write_loop_same name diffs ids : ∀ k ds tr,
  (∀ i d, written diffs (times_size ds) k (length ids) i d →
     row_of ds name i = Some d) →
  ∃ tr', write_loop name diffs k ids ds tr = Ok (ds, tr').
Proof.
  unfold written.
  induction ids as [|id rest IH]; intros k ds tr Hrows; simpl; [eauto|].
  assert (∀ i d, S k ≤ i < S k + length rest
                 ∧ diffs !! ordinal i = Some d ∧ length d = times_size ds →
            row_of ds name i = Some d) as Hnext.
  { intros i d (Hi & Hd). apply Hrows. simpl. split; [lia|done]. }
  destruct (diffs !! ordinal k) as [d0|] eqn:Hd0; [|by apply IH].
  case_bool_decide as Hsize; [|by apply IH].
  rewrite assign_row_same; [by apply IH|].
  apply Hrows. simpl. split; [lia|done].
Qed.

Lemma create_variable_row ds name dt i :
  i < length (divisions ds) →
  row_of (create_variable ds name dt) name i
  = Some (replicate (times_size ds) None).
Proof.
  intros Hi. unfold row_of, create_variable. simpl.
  rewrite lookup_insert_eq. simpl. by apply lookup_replicate_2.
Qed.

Lemma no_create_in_loop name diffs t k n other dt :
  ¬ loop_event name diffs t k n (CreateVariable other dt).
Proof. by intros (i & d & _ & _ & [[_ ?]|[_ ?]]). Qed.

Section PersistFacts.

Variable find_netcdf_datatype : option float → result string.

Lemma provision_inv rnd ds diffs index ds1 tr1 :
  provision find_netcdf_datatype rnd ds diffs index = Ok (ds1, tr1) →
  (∃ v, variables ds !! ("diffs_" +:+ index) = Some v ∧ ds1 = ds ∧ tr1 = [])
  ∨ (variables ds !! ("diffs_" +:+ index) = None
     ∧ ∃ dt, ds1 = create_variable ds ("diffs_" +:+ index) dt
             ∧ tr1 = [CreateVariable ("diffs_" +:+ index) dt]).
Proof.
  unfold provision. intros H.
  destruct (variables ds !! ("diffs_" +:+ index)) as [v|].
  - injection H as <- <-. left. eauto.
  - right. split; [done|].
    apply bind_Ok in H as (random_array & _ & H).
    apply bind_Ok in H as (item & _ & H).
    apply bind_Ok in H as (dt & _ & H).
    injection H as <- <-. eauto.
Qed.

Lemma persist_inv rnd ds diffs index ds' tr' :
  persist find_netcdf_datatype rnd ds diffs index = Ok (ds', tr') →
  ∃ ds1 tr1,
    provision find_netcdf_datatype rnd ds diffs index = Ok (ds1, tr1)
    ∧ write_loop ("diffs_" +:+ index) diffs 0 (divisions ds1) ds1 tr1
      = Ok (ds', tr').
Proof.
  unfold persist. intros H. apply bind_Ok in H as ([ds1 tr1] & Hprov & H).
  eauto.
Qed.

Lemma provision_frame rnd ds diffs index ds1 tr1 :
  provision find_netcdf_datatype rnd ds diffs index = Ok (ds1, tr1) →
  divisions ds1 = divisions ds
  ∧ times_size ds1 = times_size ds
  ∧ is_Some (variables ds1 !! ("diffs_" +:+ index))
  ∧ ∀ other, other ≠ "diffs_" +:+ index →
      variables ds1 !! other = variables ds !! other.
Proof.
  intros H. apply provision_inv in H
    as [(v & Hv & -> & ->)|(Hnone & dt & -> & ->)].
  - by rewrite Hv.
  - simpl. rewrite lookup_insert_eq. repeat split; [done|].
    intros other Hne. by rewrite lookup_insert_ne.
Qed.

Lemma persist_never_locks rnd ds diffs index ds' tr :
  persist find_netcdf_datatype rnd ds diffs index = Ok (ds', tr) →
  (LockAcquire ∉ tr) ∧ (LockRelease ∉ tr).
Proof.
  intros H. apply persist_inv in H as (ds1 & tr1 & Hprov & Hloop).
  destruct (write_loop_trace _ _ _ _ _ _ _ _ Hloop) as (suffix & -> & Hsuffix).
  assert (∀ e, e ∈ tr1 → e ≠ LockAcquire ∧ e ≠ LockRelease) as Hfirst.
  { intros e He.
    apply provision_inv in Hprov as [(v & _ & _ & ->)|(_ & dt & _ & ->)].
    - by apply elem_of_nil in He.
    - by apply list_elem_of_singleton in He as ->. }
  assert (∀ e, e ∈ suffix → e ≠ LockAcquire ∧ e ≠ LockRelease) as Hrest.
  { intros e He. apply Hsuffix in He as (i & d & _ & _ & [[_ ->]|[_ ->]]); done. }
  split; intros [Hin|Hin]%elem_of_app;
    first [apply Hfirst in Hin as [? ?]|apply Hrest in Hin as [? ?]]; done.
Qed.


(** C6: after a run that completed, the variable exists, and a second run
    with the same differences and the same label completes and leaves the
    store as it is, creating nothing; a variable that exists before a run
    is not created again and keeps its type, dimensions, fill value and
    shape. *)
Theorem persist_idempotent rnd rnd' ds diffs index ds1 tr1 :
  persist find_netcdf_datatype rnd ds diffs index = Ok (ds1, tr1) →
  is_Some (variables ds1 !! ("diffs_" +:+ index))
  ∧ (∃ tr2,
       persist find_netcdf_datatype rnd' ds1 diffs index = Ok (ds1, tr2)
       ∧ ∀ other dt, CreateVariable other dt ∉ tr2)
  ∧ ∀ v, variables ds !! ("diffs_" +:+ index) = Some v →
      (∀ other dt, CreateVariable other dt ∉ tr1)
      ∧ ∃ v1, variables ds1 !! ("diffs_" +:+ index) = Some v1
              ∧ same_declaration v v1.
Proof.
  intros Hpersist.
  apply persist_inv in Hpersist as (dsp & trp & Hprov & Hloop).
  pose proof (provision_frame _ _ _ _ _ _ Hprov)
    as (Hdiv & Htime & [vp Hvp] & _).
  pose proof (write_loop_frame _ _ _ _ _ _ _ _ Hloop)
    as (Hdiv1 & Htime1 & _ & Hvar).
  destruct (Hvar vp Hvp) as (v1 & Hv1 & Hsame).
  split; [by rewrite Hv1|]. split.
  - destruct (write_loop_same ("diffs_" +:+ index) diffs (divisions ds1) 0 ds1 []) as [tr2 Hloop2].
    { intros i d Hwritten.
      destruct (write_loop_rows _ _ _ _ _ _ _ _ Hloop i) as [Hw _].
      apply Hw. by rewrite <-Htime1, <-Hdiv1. }
    exists tr2. split.
    + unfold persist, provision. rewrite Hv1. simpl. exact Hloop2.
    + intros other dt Hin.
      destruct (write_loop_trace _ _ _ _ _ _ _ _ Hloop2) as (suffix & -> & Hsuffix).
      simpl in Hin. apply Hsuffix in Hin. by eapply no_create_in_loop.
  - intros v Hv.
    apply provision_inv in Hprov as [(v' & Hv' & -> & ->)|(Hnone & _)]; [|congruence].
    split.
    + intros other dt Hin.
      destruct (write_loop_trace _ _ _ _ _ _ _ _ Hloop) as (suffix & -> & Hsuffix).
      simpl in Hin. apply Hsuffix in Hin. by eapply no_create_in_loop.
    + destruct (Hvar v Hv) as (v2 & Hv2 & Hsame2). eauto.
Qed.

(** C7: a run that completes changes nothing but the variable of the
    differences: the coordinate variables and every other variable are as
    before, every row written is a row of that variable, and the row of a
    division without an entry in the dictionary is as before (the unwritten
    row when the variable is new). *)
Theorem persist_frame rnd ds diffs index ds' tr :
  persist find_netcdf_datatype rnd ds diffs index = Ok (ds', tr) →
  divisions ds' = divisions ds
  ∧ times_size ds' = times_size ds
  ∧ (∀ other, other ≠ "diffs_" +:+ index →
       variables ds' !! other = variables ds !! other)
  ∧ (∀ other i d, AssignRow other i d ∈ tr → other = "diffs_" +:+ index)
  ∧ ∀ i, diffs !! ordinal i = None →
      (∀ v, variables ds !! ("diffs_" +:+ index) = Some v →
            row_of ds' ("diffs_" +:+ index) i = data v !! i)
      ∧ (variables ds !! ("diffs_" +:+ index) = None →
         i < length (divisions ds) →
         row_of ds' ("diffs_" +:+ index) i
         = Some (replicate (times_size ds) None)).
Proof.
  intros Hpersist.
  apply persist_inv in Hpersist as (dsp & trp & Hprov & Hloop).
  pose proof (provision_frame _ _ _ _ _ _ Hprov)
    as (Hdiv & Htime & _ & Hother).
  pose proof (write_loop_frame _ _ _ _ _ _ _ _ Hloop)
    as (Hdiv1 & Htime1 & Hother1 & _).
  split; [congruence|]. split; [congruence|]. split.
  { intros other Hne. by rewrite Hother1, Hother. }
  split.
  { intros other i d Hin.
    destruct (write_loop_trace _ _ _ _ _ _ _ _ Hloop) as (suffix & -> & Hsuffix).
    apply elem_of_app in Hin as [Hin|Hin].
    - apply provision_inv in Hprov
        as [(v & Hv & _ & ->)|(_ & dt & _ & ->)];
        [by apply elem_of_nil in Hin|].
      by apply list_elem_of_singleton in Hin.
    - apply Hsuffix in Hin as (j & d' & _ & _ & [[_ [= -> _ _]]|[_ [=]]]).
      done. }
  intros i Hnone.
  destruct (write_loop_rows _ _ _ _ _ _ _ _ Hloop i) as [_ Hnw].
  rewrite Hnw by (intros d (_ & Hd & _); congruence).
  apply provision_inv in Hprov as [(v & Hv & -> & ->)|(Hnew & dt & -> & ->)].
  - split; [|congruence]. intros v' Hv'. unfold row_of. rewrite Hv'. done.
  - split; [congruence|]. intros _ Hi. by apply create_variable_row.
Qed.

End PersistFacts.


Lemma persist_idempotent_witness :
  ∃ ds1 tr1,
    persist always_f8 0 scenario short_diffs "Z-Index" = Ok (ds1, tr1)
    ∧ is_Some (variables ds1 !! "diffs_Z-Index")
    ∧ ∃ tr2,
        persist always_f8 1 ds1 short_diffs "Z-Index" = Ok (ds1, tr2)
        ∧ ∀ other dt, CreateVariable other dt ∉ tr2.
Proof.
  destruct (persist always_f8 0 scenario short_diffs "Z-Index")
    as [[ds1 tr1]|e] eqn:Hrun; [|vm_compute in Hrun; discriminate].
  exists ds1, tr1. split; [reflexivity|].
  destruct (persist_idempotent always_f8 0 1 _ _ _ _ _ Hrun)
    as (Hsome & Hagain & _).
  split; [exact Hsome|exact Hagain].
Defined.

Lemma persist_frame_witness :
  ∃ ds' tr,
    persist always_f8 0 scenario (<[ordinal 1 := row_of_numbers [0; 0; 0; 1]%float]> ∅)
      "Z-Index" = Ok (ds', tr)
    ∧ divisions ds' = [KInt 101; KInt 102]
    ∧ times_size ds' = 4
    ∧ variables ds' !! "cmb_zndx" = variables scenario !! "cmb_zndx"
    ∧ variables ds' !! "zindex" = variables scenario !! "zindex"
    ∧ row_of ds' "diffs_Z-Index" 0 = Some [None; None; None; None].
Proof.
  eexists _, _. split; [vm_compute; reflexivity|].
  edestruct (persist_frame always_f8 0 scenario
               (<[ordinal 1 := row_of_numbers [0; 0; 0; 1]%float]> ∅) "Z-Index")
    as (Hdiv & Htime & Hother & _ & Hrows);
    [vm_compute; reflexivity|].
  split; [exact Hdiv|]. split; [exact Htime|].
  split; [by apply Hother|]. split; [by apply Hother|].
  destruct (Hrows 0) as [_ Hnew]; [vm_compute; reflexivity|].
  apply Hnew; [vm_compute; reflexivity|simpl; lia].
Defined.


(** C10: in the scenario the run creates the variable and assigns both
    rows, and its trace has no acquisition and no release of [lock]: the
    writes are not serialized. *)
Theorem scenario_writes_without_lock :
  ∃ ds' tr,
    compare_index binary64_libraries always_f8 0 scenario "Z-Index"
      ("cmb_zndx", "zindex") [] = Ok (ds', tr)
    ∧ CreateVariable "diffs_Z-Index" "f8" ∈ tr
    ∧ AssignRow "diffs_Z-Index" 0 (row_of_numbers [0; 1; 1; (-1)]%float) ∈ tr
    ∧ AssignRow "diffs_Z-Index" 1 (row_of_numbers [0; 0; 0; (-1)]%float) ∈ tr
    ∧ (LockAcquire ∉ tr)
    ∧ (LockRelease ∉ tr)
    ∧ writes_serialized false tr = false.
Proof.
  eexists _, _. split; [vm_compute; reflexivity|].
  split; [by apply (list_elem_of_lookup_2 _ 47)|].
  split; [by apply (list_elem_of_lookup_2 _ 48)|].
  split; [by apply (list_elem_of_lookup_2 _ 49)|].
  split; [|split].
  - intros Hin. repeat (apply elem_of_cons in Hin as [Hin|Hin]; [done|]).
    by apply elem_of_nil in Hin.
  - intros Hin. repeat (apply elem_of_cons in Hin as [Hin|Hin]; [done|]).
    by apply elem_of_nil in Hin.
  - reflexivity.
Qed.

(** * Further facts about the metadata resolver *)

Lemma variable_name_fixed index_name months :
  index_name ∈ fixed_name_indices → variable_name index_name months = index_name.
Proof. unfold fixed_name_indices. intros Hin. each_member Hin; reflexivity. Qed.

Lemma variable_name_scaled index_name months :
  index_name ∈ time_scaled_indices →
  variable_name index_name months = scaled_variable_name index_name months.
Proof. unfold time_scaled_indices. intros Hin. each_member Hin; reflexivity. Qed.

Lemma standard_name_variable_name index_name months attrs :
  supported_call index_name months →
  _variable_attributes index_name months = Ok attrs →
  attrs !! "standard_name" = Some (AStr (variable_name index_name months)).
Proof.
  intros [Hin|[Hin _]] Hcall.
  - unfold fixed_name_indices in Hin.
    each_member Hin; injection Hcall as <-; reflexivity.
  - unfold time_scaled_indices in Hin.
    each_member Hin; injection Hcall as <-; reflexivity.
Qed.

Lemma is_digit_not_sign c : Py.is_digit c = true → Py.is_sign c = false.
Proof. destruct c as [[] [] [] [] [] [] [] []]; by vm_compute. Qed.

Lemma leading_pretty_N_go (x : N) (s : string) :
  (0 < x)%N → leading_nonzero_digit (pretty_N_go x s) = true.
Proof.
  revert s. induction (N.lt_wf_0 x) as [x _ IH]; intros s Hx.
  rewrite pretty_N_go_step by done.
  destruct (decide (x `div` 10 = 0)%N) as [Hsmall|Hbig].
  - rewrite Hsmall, pretty_N_go_0.
    assert (x < 10)%N as Hlt by (by apply N.div_small_iff in Hsmall).
    rewrite N.mod_small by done.
    destruct x as [|p]; [done|].
    do 4 (try (destruct p as [p|p|]; try lia; try reflexivity)).
  - apply IH; [apply N.div_lt; lia|by apply N.neq_0_lt_0].
Qed.

(** The decimal numeral of an integer: one digit, or at least two
    characters of which the first is no zero. *)
Lemma pretty_Z_shape (z : Z) :
  (∃ c, pretty z = String c "" ∧ Py.is_digit c = true)
  ∨ (∃ c d rest, pretty z = String c (String d rest) ∧ c ≠ "0"%char).
Proof.
  assert (∀ p : positive, ∃ c rest,
            pretty (N.pos p) = String c rest
            ∧ Py.is_digit c = true ∧ c ≠ "0"%char) as Hpos.
  { intros p. pose proof (leading_pretty_N_go (N.pos p) "" eq_refl) as Hlead.
    unfold pretty, pretty_N. rewrite decide_False by done.
    destruct (pretty_N_go (N.pos p) "") as [|c rest]; [done|].
    simpl in Hlead. apply andb_true_iff in Hlead as [Hdigit Hzero].
    exists c, rest. split; [done|]. split; [done|].
    intros ->. by rewrite bool_decide_true in Hzero. }
  destruct z as [|p|p].
  - left. by exists "0"%char.
  - destruct (Hpos p) as (c & rest & Hp & Hdigit & Hzero).
    change (pretty (Z.pos p)) with (pretty (N.pos p)). rewrite Hp.
    destruct rest as [|d rest]; [left|right]; eauto.
  - right. destruct (Hpos p) as (c & rest & Hp & _).
    change (pretty (Z.neg p)) with ("-" +:+ pretty (N.pos p)). rewrite Hp.
    by exists "-"%char, c, rest.
Qed.

Lemma unpad_zfill_pretty (z : Z) : unpad (Py.zfill 2 (pretty z)) = pretty z.
Proof.
  destruct (pretty_Z_shape z) as [(c & -> & Hdigit)|(c & d & rest & -> & Hzero)].
  - unfold Py.zfill. rewrite (is_digit_not_sign c Hdigit). reflexivity.
  - assert (Py.zfill 2 (String c (String d rest)) = String c (String d rest))
      as ->.
    { unfold Py.zfill. simpl. by destruct (Py.is_sign c). }
    unfold unpad. destruct rest; [|done]. by rewrite bool_decide_false.
Qed.

Lemma zfill_pretty_inj (z1 z2 : Z) :
  Py.zfill 2 (pretty z1) = Py.zfill 2 (pretty z2) → z1 = z2.
Proof.
  intros H. apply (inj pretty).
  by rewrite <-(unpad_zfill_pretty z1), <-(unpad_zfill_pretty z2), H.
Qed.

(** X1: two calls for supported indices that give the same
    [standard_name] are calls for the same identifier and, for a
    time-scaled identifier, for the same scale: no two indices share a
    variable name. *)
Theorem standard_names_distinct id1 id2 m1 m2 attrs1 attrs2 :
  supported_call id1 m1 → supported_call id2 m2 →
  _variable_attributes id1 m1 = Ok attrs1 →
  _variable_attributes id2 m2 = Ok attrs2 →
  attrs1 !! "standard_name" = attrs2 !! "standard_name" →
  id1 = id2 ∧ (id1 ∈ time_scaled_indices → m1 = m2).
Proof.
  intros Hs1 Hs2 Hcall1 Hcall2 Hsame.
  rewrite (standard_name_variable_name _ _ _ Hs1 Hcall1) in Hsame.
  rewrite (standard_name_variable_name _ _ _ Hs2 Hcall2) in Hsame.
  injection Hsame as Hsame. clear Hcall1 Hcall2 attrs1 attrs2.
  assert (id1 = id2) as <-.
  { destruct Hs1 as [Hin1|[Hin1 _]], Hs2 as [Hin2|[Hin2 _]].
    - by rewrite !variable_name_fixed in Hsame.
    - rewrite variable_name_fixed, variable_name_scaled in Hsame by done.
      unfold scaled_variable_name in Hsame.
      revert Hsame. generalize (Py.zfill 2 (Py.str m2)). intros pad Hsame.
      unfold fixed_name_indices in Hin1. unfold time_scaled_indices in Hin2.
      each_member Hin1; each_member Hin2; simpl in Hsame; discriminate.
    - rewrite variable_name_scaled, variable_name_fixed in Hsame by done.
      unfold scaled_variable_name in Hsame.
      revert Hsame. generalize (Py.zfill 2 (Py.str m1)). intros pad Hsame.
      unfold time_scaled_indices in Hin1. unfold fixed_name_indices in Hin2.
      each_member Hin1; each_member Hin2; simpl in Hsame; discriminate.
    - rewrite !variable_name_scaled in Hsame by done.
      unfold scaled_variable_name in Hsame.
      revert Hsame. generalize (Py.zfill 2 (Py.str m1)) (Py.zfill 2 (Py.str m2)).
      intros pad1 pad2 Hsame.
      unfold time_scaled_indices in Hin1, Hin2.
      each_member Hin1; each_member Hin2; simpl in Hsame;
        first [reflexivity|discriminate]. }
  split; [done|]. intros Hscaled.
  destruct Hs1 as [Hfixed|[_ [z1 ->]]].
  { exfalso. unfold fixed_name_indices in Hfixed.
    each_member Hfixed; revert Hscaled; by_compute. }
  destruct Hs2 as [Hfixed|[_ [z2 ->]]].
  { exfalso. unfold fixed_name_indices in Hfixed.
    each_member Hfixed; revert Hscaled; by_compute. }
  rewrite !variable_name_scaled in Hsame by done.
  unfold scaled_variable_name in Hsame.
  apply string_app_inj_l in Hsame. apply (string_app_inj_l "_") in Hsame.
  f_equal. by apply zfill_pretty_inj.
Qed.

Lemma standard_names_distinct_witness :
  "spi_gamma" = "spi_gamma"
  ∧ ("spi_gamma" ∈ time_scaled_indices → Some 3%Z = Some 3%Z).
Proof.
  eapply (standard_names_distinct "spi_gamma" "spi_gamma" (Some 3%Z) (Some 3%Z)).
  - right. split; [by_compute|by eexists].
  - right. split; [by_compute|by eexists].
  - vm_compute. reflexivity.
  - vm_compute. reflexivity.
  - reflexivity.
Defined.

(** X2: the dictionary of a supported index has the entries
    [standard_name], [long_name], [valid_min] and [valid_max]; it has a
    [units] entry only for [pet] (millimeter) and [pnp] (percent of
    average), and no other entry. *)
Theorem attribute_keys index_name months attrs :
  supported_call index_name months →
  _variable_attributes index_name months = Ok attrs →
  (∀ key, is_Some (attrs !! key)
          ↔ key ∈ ["standard_name"; "long_name"; "valid_min"; "valid_max"]
            ∨ (key = "units" ∧ index_name ∈ ["pet"; "pnp"]))
  ∧ attrs !! "units"
    = (if bool_decide (index_name = "pet") then Some (AStr "millimeter")
       else if bool_decide (index_name = "pnp")
            then Some (AStr "percent of average")
            else None).
Proof.
  intros Hsupported Hcall.
  assert (index_name ∈ (fixed_name_indices ++ time_scaled_indices)%list) as Hin.
  { apply elem_of_app. destruct Hsupported as [?|[? _]]; auto. }
  clear Hsupported. unfold fixed_name_indices, time_scaled_indices in Hin.
  simpl in Hin.
  assert (∀ key, key = "units" ∧ index_name ∈ ["pet"; "pnp"]
                 ↔ key = "units"
                   ∧ (index_name = "pet" ∨ index_name = "pnp")) as Hunits.
  { intros key. rewrite !elem_of_cons, elem_of_nil. tauto. }
  each_member Hin; injection Hcall as <-; (split; [|reflexivity]);
    intros key; rewrite Hunits, <-elem_of_dom.
  all: rewrite !dom_insert_L, dom_empty_L, !elem_of_union, !elem_of_singleton,
    elem_of_empty, !elem_of_cons, elem_of_nil.
  all: (split; [intros Hkey; destruct_or!; auto 10; done|
                intros [Hkey|[-> [?|?]]]; [tauto|by auto 10..]]).
Qed.

Lemma attribute_keys_witness :
  ∃ attrs,
    _variable_attributes "pnp" (Some 6%Z) = Ok attrs
    ∧ attrs !! "units" = Some (AStr "percent of average")
    ∧ attrs !! "variable_name" = None.
Proof.
  eexists. split; [reflexivity|].
  edestruct (attribute_keys "pnp" (Some 6%Z)) as [Hkeys Hunits].
  - right. split; [by_compute|by eexists].
  - reflexivity.
  - split; [exact Hunits|].
    apply eq_None_not_Some. intros Hsome. apply Hkeys in Hsome.
    revert Hsome. rewrite !elem_of_cons, elem_of_nil.
    intros [Hkey|[Hkey _]]; [destruct_or!; discriminate|discriminate].
Defined.

(** * Further facts about the difference computation *)

(** The declared shape of a store given by its variables. *)
Ltac shape_by_cases :=
  unfold store_wf; simpl;
  repeat (apply map_Forall_insert_2; [split; [reflexivity|repeat constructor]|]);
  apply map_Forall_empty.

(** No identifier of a list of two divisions is a given ordinal. *)
Ltac kept_by_cases :=
  let j := fresh "j" in
  let Hj := fresh "Hj" in
  let Hlook := fresh "Hlook" in
  intros j Hj Hlook;
  do 2 (destruct j as [|j]; [first [lia|vm_compute in Hlook; discriminate]|]);
  discriminate.

Section FurtherDifferenceFacts.

Variable ext : externals.

Lemma diff_entries_lengths ds var_names (t : nat) ids : ∀ k acc diffs,
  diff_entries ext ds var_names k ids acc = Ok diffs →
  (∀ i d, i < length ids → differences_of ext ds var_names (k + i) = Ok d →
          length d = t) →
  (∀ key d, acc !! key = Some d → length d = t) →
  ∀ key d, diffs !! key = Some d → length d = t.
Proof.
  intros k acc diffs Hloop Hdiffs Hacc key d Hkey.
  destruct (diff_entries_spec _ _ _ _ _ _ _ Hloop) as [_ Hentries].
  destruct (Hentries key d Hkey) as [Hold|(i & Hi & _ & Hd)]; eauto.
Qed.

(** X3: when the two rows of a division have the same length, the
    difference has that length, and at every position where both cells
    are finite numbers it is the reference number minus the candidate
    number, in the subtraction numpy has for the datatypes of the two
    variables, whatever is missing elsewhere in the rows. *)
Theorem differences_of_valid_positions ds var_names n r c :
  read_row ds var_names.1 n = Ok r →
  read_row ds var_names.2 n = Ok c →
  length r = length c →
  ∃ d,
    differences_of ext ds var_names n = Ok d
    ∧ length d = length r
    ∧ ∀ i x y,
        r !! i = Some (Some x) → c !! i = Some (Some y) →
        is_finite x = true → is_finite y = true →
        d !! i = Some (Some (np_subtract ext (variable_dtype ds var_names.1)
                               (variable_dtype ds var_names.2) x y)).
Proof.
  intros Hr Hc Hlen. unfold differences_of. rewrite Hr, Hc. simpl.
  unfold ma_subtract, masked_invalid. rewrite !length_fmap.
  rewrite bool_decide_true by done. eexists. split; [done|]. split.
  - rewrite length_zip_with, !length_fmap. lia.
  - intros i x y Hx Hy Hfx Hfy.
    rewrite lookup_zip_with, !list_lookup_fmap, Hx, Hy. simpl.
    by rewrite Hfx, Hfy.
Qed.

Lemma diff_dictionary_wf ds var_names :
  store_wf ds →
  is_Some (variables ds !! var_names.1) →
  is_Some (variables ds !! var_names.2) →
  ∃ diffs,
    diff_dictionary ext ds var_names = Ok diffs
    ∧ (∀ key d, diffs !! key = Some d → length d = times_size ds)
    ∧ (∀ key, is_Some (diffs !! key)
              ↔ key ∈ divisions ds
                ∨ ∃ n, n < length (divisions ds) ∧ key = ordinal n).
Proof.
  intros Hwf H1 H2.
  destruct (diff_dictionary_returns ext ds var_names Hwf H1 H2)
    as [diffs Hdiffs].
  exists diffs. split; [done|]. split.
  - apply (diff_entries_lengths _ _ _ _ _ _ _ Hdiffs);
      [|by intros ??; rewrite lookup_empty].
    intros i d Hi Hd.
    destruct (differences_of_wf ext ds var_names i Hwf H1 H2 Hi)
      as (d' & Hd' & Hlen).
    simpl in Hd. congruence.
  - by apply (diff_dictionary_keys ext ds var_names).
Qed.

(** X6: on a store whose variables all have the declared shape and that
    has both variables, the computation returns a dictionary when pyplot
    accepts every call; the keys of a dictionary it returns are the ordinal
    positions and the identifiers of the divisions, and every entry has as
    many time steps as the store. *)
Theorem compute_diffs_well_shaped ds index var_names trace :
  store_wf ds →
  is_Some (variables ds !! var_names.1) →
  is_Some (variables ds !! var_names.2) →
  (plots_accepted ext →
   ∃ diffs trace',
     compute_diffs ext ds index var_names trace = Ok (diffs, trace'))
  ∧ ∀ diffs trace',
      compute_diffs ext ds index var_names trace = Ok (diffs, trace') →
      (∀ key d, diffs !! key = Some d → length d = times_size ds)
      ∧ (∀ key, is_Some (diffs !! key)
                ↔ key ∈ divisions ds
                  ∨ ∃ n, n < length (divisions ds) ∧ key = ordinal n).
Proof.
  intros Hwf H1 H2.
  destruct (diff_dictionary_wf ds var_names Hwf H1 H2)
    as (diffs & Hdiffs & Hlen & Hdom).
  split.
  - intros Haccepted. exists diffs. by apply compute_diffs_returns.
  - intros diffs' trace' Hrun.
    apply compute_diffs_completed in Hrun as [Hdiffs' _].
    assert (diffs' = diffs) as -> by congruence. done.
Qed.

Lemma diff_dictionary_shadowed ds var_names diffs i j :
  diff_dictionary ext ds var_names = Ok diffs →
  i < j → divisions ds !! j = Some (ordinal i) →
  (∀ j', j < j' → divisions ds !! j' ≠ Some (ordinal i)) →
  ∃ d, differences_of ext ds var_names j = Ok d ∧ diffs !! ordinal i = Some d.
Proof.
  intros Hdiffs Hij Hj Hlast.
  pose proof (lookup_lt_Some _ _ _ Hj) as Hjlen.
  destruct (diff_dictionary_entries _ _ _ _ Hdiffs) as [Hall _].
  destruct (Hall j Hjlen) as [d Hd]. exists d. split; [done|].
  destruct (diff_entries_lookup _ _ _ _ 0 _ _ j (ordinal i) d Hdiffs Hj Hd)
    as [_ H2].
  apply H2; [done|]. intros j' [Hj' _] Heq. apply ordinal_inj in Heq.
  simpl in Heq. lia.
Qed.

Lemma diff_dictionary_kept ds var_names diffs i :
  diff_dictionary ext ds var_names = Ok diffs →
  i < length (divisions ds) → ordinal_kept (divisions ds) i →
  ∃ d, differences_of ext ds var_names i = Ok d ∧ diffs !! ordinal i = Some d.
Proof.
  intros Hdiffs Hi Hkept.
  destruct (diff_dictionary_entries _ _ _ _ Hdiffs) as [Hall _].
  destruct (Hall i Hi) as [d Hd]. exists d. split; [done|].
  destruct (lookup_lt_is_Some_2 (divisions ds) i Hi) as [id Hid].
  destruct (diff_entries_lookup _ _ _ _ 0 _ _ i id d Hdiffs Hid Hd) as [H1 _].
  by apply H1.
Qed.

Lemma differences_of_agree ds ds' var_names n :
  variables ds' !! var_names.1 = variables ds !! var_names.1 →
  variables ds' !! var_names.2 = variables ds !! var_names.2 →
  differences_of ext ds' var_names n = differences_of ext ds var_names n.
Proof.
  intros H1 H2. unfold differences_of, read_row, variable_dtype.
  by rewrite H1, H2.
Qed.

End FurtherDifferenceFacts.

Lemma differences_of_valid_positions_witness :
  ∃ d,
    differences_of binary64_libraries gappy_store ("reference", "candidate") 0
    = Ok d
    ∧ length d = 3
    ∧ d !! 2 = Some (Some (-2)%float).
Proof.
  destruct (differences_of_valid_positions binary64_libraries gappy_store
              ("reference", "candidate") 0
              [Some 1; Some nan; Some 3]%float [None; Some 2; Some 5]%float)
    as (d & Hd & Hlen & Hvalid); [reflexivity..|].
  exists d. split; [exact Hd|]. split; [exact Hlen|].
  apply (Hvalid 2 3%float 5%float); reflexivity.
Defined.

Lemma compute_diffs_well_shaped_witness :
  ∃ diffs trace,
    compute_diffs binary64_libraries scenario "Z-Index"
      ("cmb_zndx", "zindex") [] = Ok (diffs, trace)
    ∧ (∀ key d, diffs !! key = Some d → length d = 4).
Proof.
  destruct (compute_diffs_well_shaped binary64_libraries scenario "Z-Index"
              ("cmb_zndx", "zindex") []) as [Hreturns Hshape].
  - unfold scenario. shape_by_cases.
  - by eexists.
  - by eexists.
  - destruct Hreturns as (diffs & trace & Hrun);
      [intros trace call; reflexivity|].
    exists diffs, trace. split; [exact Hrun|].
    by destruct (Hshape diffs trace Hrun) as [Hlen _].
Defined.

(** * Further facts about provisioning and writing *)

Lemma has_shape_same_declaration n t v v' :
  same_declaration v v' → has_shape n t v → has_shape n t v'.
Proof.
  intros (_ & _ & _ & Hshape) [Hlen Hrows].
  assert (length (data v') = length (data v)) as Hlen'.
  { by rewrite <-(length_fmap length (data v')), Hshape, length_fmap. }
  split; [congruence|].
  assert (Forall (λ n, n = t) (length <$> data v')) as Hall.
  { rewrite Hshape. by apply Forall_fmap. }
  by apply Forall_fmap in Hall.
Qed.

Lemma create_variable_wf ds name dt :
  store_wf ds → store_wf (create_variable ds name dt).
Proof.
  intros Hwf. unfold store_wf, create_variable. simpl.
  apply map_Forall_insert_2; [|done]. split; simpl.
  - by rewrite length_replicate.
  - apply Forall_replicate. by rewrite length_replicate.
Qed.

Lemma random_choice_elem {A} rnd (l : list A) :
  l ≠ [] → ∃ x, random_choice rnd l = Ok x ∧ x ∈ l.
Proof.
  intros Hne. unfold random_choice.
  destruct (l !! (rnd mod length l)) as [x|] eqn:Hx.
  - exists x. split; [done|]. by eapply list_elem_of_lookup_2.
  - apply lookup_ge_None in Hx.
    assert (length l ≠ 0) by (by destruct l).
    pose proof (Nat.mod_upper_bound rnd (length l)). lia.
Qed.

Lemma row_of_create_variable ds name dt dt' other i :
  row_of (create_variable ds name dt) other i
  = row_of (create_variable ds name dt') other i.
Proof.
  unfold row_of, create_variable. simpl.
  destruct (decide (name = other)) as [->|Hne].
  - by rewrite !lookup_insert_eq.
  - by rewrite !lookup_insert_ne.
Qed.

Lemma write_loop_agree name diffs1 diffs2 ids : ∀ k ds tr,
  (∀ i, k ≤ i < k + length ids →
        diffs1 !! ordinal i = diffs2 !! ordinal i) →
  write_loop name diffs1 k ids ds tr = write_loop name diffs2 k ids ds tr.
Proof.
  induction ids as [|id rest IH]; intros k ds tr Hagree; [done|].
  simpl. rewrite <-(Hagree k) by (simpl; lia).
  assert (∀ ds' tr', write_loop name diffs1 (S k) rest ds' tr'
                     = write_loop name diffs2 (S k) rest ds' tr') as Hrest.
  { intros ds' tr'. apply IH. intros i Hi. apply Hagree. simpl. lia. }
  destruct (diffs1 !! ordinal k) as [d|]; [|done].
  case_bool_decide; [|done].
  destruct (assign_row ds name k d) as [ds'|e]; simpl; [done|done].
Qed.

Section PipelineFacts.

Variable ext : externals.
Variable find_netcdf_datatype : option float → result string.

Lemma persist_effect rnd ds diffs index ds' tr :
  persist find_netcdf_datatype rnd ds diffs index = Ok (ds', tr) →
  divisions ds' = divisions ds
  ∧ times_size ds' = times_size ds
  ∧ is_Some (variables ds' !! ("diffs_" +:+ index))
  ∧ ∀ other, other ≠ "diffs_" +:+ index →
      variables ds' !! other = variables ds !! other.
Proof.
  intros H. apply persist_inv in H as (ds1 & tr1 & Hprov & Hloop).
  apply provision_frame in Hprov as (Hdiv & Htime & [v Hv] & Hother).
  apply write_loop_frame in Hloop as (Hdiv' & Htime' & Hother' & Hvar).
  destruct (Hvar v Hv) as (v' & Hv' & _).
  split; [congruence|]. split; [congruence|]. split; [by rewrite Hv'|].
  intros other Hne. by rewrite Hother', Hother.
Qed.

Lemma persist_store_wf rnd ds diffs index ds' tr :
  store_wf ds →
  persist find_netcdf_datatype rnd ds diffs index = Ok (ds', tr) →
  store_wf ds'.
Proof.
  intros Hwf H. apply persist_inv in H as (ds1 & tr1 & Hprov & Hloop).
  assert (store_wf ds1) as Hwf1.
  { apply provision_inv in Hprov as [(v & _ & -> & _)|(_ & dt & -> & _)];
      [done|by apply create_variable_wf]. }
  apply write_loop_frame in Hloop as (Hdiv & Htime & Hother & Hvar).
  intros name v' Hv'. rewrite Hdiv, Htime.
  destruct (decide (name = "diffs_" +:+ index)) as [->|Hne].
  - destruct (variables ds1 !! ("diffs_" +:+ index)) as [v1|] eqn:Hv1.
    + destruct (Hvar v1 eq_refl) as (v'' & Hv'' & Hsame).
      rewrite Hv' in Hv''. injection Hv'' as <-.
      eapply has_shape_same_declaration; [done|]. by apply (Hwf1 _ _ Hv1).
    + exfalso. apply provision_frame in Hprov as (_ & _ & [v Hv] & _).
      congruence.
  - rewrite Hother in Hv' by done. by apply (Hwf1 _ _ Hv').
Qed.

Lemma provision_returns rnd ds diffs index :
  is_Some (variables ds !! ("diffs_" +:+ index))
  ∨ (diffs ≠ ∅
     ∧ (∀ key d, diffs !! key = Some d → d ≠ [])
     ∧ ∀ item, ∃ dt, find_netcdf_datatype item = Ok dt) →
  ∃ ds1 tr1, provision find_netcdf_datatype rnd ds diffs index = Ok (ds1, tr1).
Proof.
  unfold provision.
  destruct (variables ds !! ("diffs_" +:+ index)) as [v|]; [eauto|].
  intros [[? [=]]|(Hne & Hitems & Hfind)].
  destruct (random_choice_elem rnd (map_to_list diffs).*2)
    as (random_array & -> & Hin).
  { intros Hnil. apply fmap_nil_inv in Hnil.
    by apply map_to_list_empty_iff in Hnil. }
  apply list_elem_of_fmap in Hin as ([key d] & -> & Hin).
  apply elem_of_map_to_list in Hin. simpl.
  destruct d as [|item d]; [by destruct (Hitems key [] Hin)|]. simpl.
  destruct (Hfind item) as [dt ->]. simpl. eauto.
Qed.

Lemma persist_returns rnd ds diffs index ds1 tr1 :
  store_wf ds →
  provision find_netcdf_datatype rnd ds diffs index = Ok (ds1, tr1) →
  ∃ ds' tr', persist find_netcdf_datatype rnd ds diffs index = Ok (ds', tr').
Proof.
  intros Hwf Hprov. unfold persist. rewrite Hprov. simpl.
  assert (store_wf ds1) as Hwf1.
  { pose proof Hprov as Hprov'.
    apply provision_inv in Hprov' as [(v & _ & -> & _)|(_ & dt & -> & _)];
      [done|by apply create_variable_wf]. }
  apply provision_frame in Hprov as (_ & _ & [v Hv] & _).
  apply write_loop_returns.
  intros i d ((_ & Hi) & Hd & Hlen).
  destruct (has_shape_row _ _ _ i (Hwf1 _ _ Hv)) as (row & Hrow & Hlen');
    [simpl in Hi; lia|].
  exists row. unfold row_of. rewrite Hv. simpl. split; [done|congruence].
Qed.

(** The two stages of an iteration. *)
Lemma compare_index_inv rnd ds index var_names trace ds' tr :
  compare_index ext find_netcdf_datatype rnd ds index var_names trace
  = Ok (ds', tr) →
  ∃ diffs trace1 events,
    compute_diffs ext ds index var_names trace = Ok (diffs, trace1)
    ∧ persist find_netcdf_datatype rnd ds diffs index = Ok (ds', events)
    ∧ tr = (trace1 ++ events)%list.
Proof.
  unfold compare_index. intros H.
  apply bind_Ok in H as ([diffs trace1] & Hdiffs & H).
  apply bind_Ok in H as ([ds1 events] & Hpersist & H).
  injection H as <- <-. eauto 6.
Qed.

Lemma compare_index_persist rnd ds index var_names trace diffs trace1 :
  compute_diffs ext ds index var_names trace = Ok (diffs, trace1) →
  compare_index ext find_netcdf_datatype rnd ds index var_names trace
  = match persist find_netcdf_datatype rnd ds diffs index with
    | Ok (ds', events) => Ok (ds', (trace1 ++ events)%list)
    | Raise e => Raise e
    end.
Proof.
  intros Hdiffs. unfold compare_index. rewrite Hdiffs. simpl.
  by destruct (persist find_netcdf_datatype rnd ds diffs index) as [[??]|?].
Qed.

Lemma compare_index_returns rnd ds index var_names trace :
  plots_accepted ext →
  (∀ item, ∃ dt, find_netcdf_datatype item = Ok dt) →
  store_wf ds → divisions ds ≠ [] → 0 < times_size ds →
  is_Some (variables ds !! var_names.1) →
  is_Some (variables ds !! var_names.2) →
  ∃ ds' tr,
    compare_index ext find_netcdf_datatype rnd ds index var_names trace
    = Ok (ds', tr).
Proof.
  intros Haccepted Hfind Hwf Hdivisions Htime H1 H2.
  destruct (diff_dictionary_wf ext ds var_names Hwf H1 H2)
    as (diffs & Hdiffs & Hlen & Hdom).
  destruct (compute_diffs_returns ext ds index var_names trace diffs
              Haccepted Hdiffs) as [trace1 Hrun].
  rewrite (compare_index_persist _ _ _ _ _ _ _ Hrun).
  destruct (provision_returns rnd ds diffs index) as (ds1 & tr1 & Hprov).
  { right. split; [|split; [|done]].
    - intros ->. destruct (divisions ds) as [|id rest] eqn:Hids; [done|].
      destruct (proj2 (Hdom id)) as [d Hd]; [left; by left|].
      by rewrite lookup_empty in Hd.
    - intros key d Hd ->. apply Hlen in Hd. simpl in Hd. lia. }
  destruct (persist_returns _ _ _ _ _ _ Hwf Hprov) as (ds' & events & ->).
  eauto.
Qed.

Lemma compare_index_rows rnd ds index var_names trace ds' tr :
  store_wf ds →
  is_Some (variables ds !! var_names.1) →
  is_Some (variables ds !! var_names.2) →
  compare_index ext find_netcdf_datatype rnd ds index var_names trace
  = Ok (ds', tr) →
  ∃ diffs,
    diff_dictionary ext ds var_names = Ok diffs
    ∧ (∀ i, i < length (divisions ds) →
         ∃ d, diffs !! ordinal i = Some d
              ∧ row_of ds' ("diffs_" +:+ index) i = Some d)
    ∧ ∃ events,
        tr = (trace ++ events)%list
        ∧ ∀ i t n, LogInfo (unexpected_size_message i t n) ∉ events.
Proof.
  intros Hwf H1 H2 Hrun.
  destruct (diff_dictionary_wf ext ds var_names Hwf H1 H2)
    as (diffs & Hdiffs & Hlen & Hdom).
  apply compare_index_inv in Hrun
    as (diffs' & trace1 & events2 & Hcompute & Hpersist & ->).
  apply compute_diffs_completed in Hcompute
    as (Hdiffs' & events1 & -> & Hevents1).
  assert (diffs' = diffs) as -> by congruence.
  apply persist_inv in Hpersist as (ds1 & tr1 & Hprov & Hloop).
  pose proof (provision_frame _ _ _ _ _ _ _ Hprov) as (Hdiv & Htime & _ & _).
  exists diffs. split; [done|]. split.
  - intros i Hi.
    destruct (proj2 (Hdom (ordinal i))) as [d Hd]; [right; eauto|].
    exists d. split; [done|].
    destruct (write_loop_rows _ _ _ _ _ _ _ _ Hloop i) as [Hw _].
    apply Hw. rewrite Hdiv, Htime. split; [simpl; lia|]. split; [done|eauto].
  - exists (events1 ++ events2)%list. split; [by rewrite app_assoc|].
    intros i t n Hin. apply elem_of_app in Hin as [Hin|Hin].
    { apply (proj1 (Forall_forall _ _) Hevents1) in Hin.
      by apply progress_not_size_message in Hin. }
    destruct (write_loop_trace _ _ _ _ _ _ _ _ Hloop) as (suffix & -> & Hsuffix).
    apply elem_of_app in Hin as [Hin|Hin].
    + apply provision_inv in Hprov as [(v & _ & _ & ->)|(_ & dt & _ & ->)].
      * by apply elem_of_nil in Hin.
      * by apply list_elem_of_singleton in Hin.
    + apply Hsuffix in Hin as (j & d & _ & Hd & [[_ [=]]|[Hne _]]).
      apply Hne. rewrite Htime. eauto.
Qed.

Lemma compare_index_effect rnd ds index var_names trace ds' tr :
  compare_index ext find_netcdf_datatype rnd ds index var_names trace
  = Ok (ds', tr) →
  divisions ds' = divisions ds
  ∧ times_size ds' = times_size ds
  ∧ ∀ other, other ≠ "diffs_" +:+ index →
      variables ds' !! other = variables ds !! other.
Proof.
  intros H. apply compare_index_inv in H as (diffs & ? & ? & _ & H & _).
  apply persist_effect in H as (? & ? & _ & ?). auto.
Qed.

Lemma compare_index_store_wf rnd ds index var_names trace ds' tr :
  store_wf ds →
  compare_index ext find_netcdf_datatype rnd ds index var_names trace
  = Ok (ds', tr) →
  store_wf ds' ∧ is_Some (variables ds' !! ("diffs_" +:+ index)).
Proof.
  intros Hwf H. apply compare_index_inv in H as (diffs & ? & ? & _ & H & _).
  split; [by eapply persist_store_wf|].
  by apply persist_effect in H as (_ & _ & ? & _).
Qed.

End PipelineFacts.

Section PipelineTheorems.

Variable ext : externals.
Variable find_netcdf_datatype : option float → result string.

(** X4: on a store without divisions the comparison logs its first line,
    reads no variable and finds no difference; the run then returns the
    store untouched when the variable of the differences exists, and raises
    the [IndexError] of [random.choice] on an empty sequence when it does
    not. *)
Theorem compare_index_no_divisions rnd ds index var_names trace :
  divisions ds = [] →
  compute_diffs ext ds index var_names trace
  = Ok (∅, log_info trace ("Computing differences on variable " +:+ index))
  ∧ compare_index ext find_netcdf_datatype rnd ds index var_names trace
    = match variables ds !! ("diffs_" +:+ index) with
      | Some _ =>
          Ok (ds, log_info trace
                    ("Computing differences on variable " +:+ index))
      | None => Raise (IndexError "Cannot choose from an empty sequence")
      end.
Proof.
  intros Hempty.
  assert (compute_diffs ext ds index var_names trace
          = Ok (∅, log_info trace
                     ("Computing differences on variable " +:+ index)))
    as Hdiffs.
  { unfold compute_diffs. by rewrite Hempty. }
  split; [done|].
  rewrite (compare_index_persist _ _ _ _ _ _ _ _ _ Hdiffs).
  unfold persist, provision.
  destruct (variables ds !! ("diffs_" +:+ index)); simpl.
  - rewrite Hempty. simpl. by rewrite app_nil_r.
  - by rewrite map_to_list_empty.
Qed.

(** X5: on a store with a division, a comparison whose reference variable
    is absent raises the [KeyError] of that name; when the reference has a
    row for the first division and the candidate variable is absent, it
    raises the [KeyError] of the candidate. Both are raised before any call
    on pyplot. *)
Theorem compare_index_missing_variable rnd ds index var_names trace :
  divisions ds ≠ [] →
  (variables ds !! var_names.1 = None →
   compare_index ext find_netcdf_datatype rnd ds index var_names trace
   = Raise (KeyError var_names.1))
  ∧ (∀ r, read_row ds var_names.1 0 = Ok r →
     variables ds !! var_names.2 = None →
     compare_index ext find_netcdf_datatype rnd ds index var_names trace
     = Raise (KeyError var_names.2)).
Proof.
  intros Hdivisions. unfold compare_index, compute_diffs.
  destruct (divisions ds) as [|id rest]; [done|]. cbn [diff_loop].
  unfold read_array. split.
  - intros Hnone. unfold read_row. by rewrite Hnone.
  - intros r Hr Hnone. rewrite Hr. unfold read_row. by rewrite Hnone.
Qed.

(** X7: a run that completes on a store of the declared shape writes into
    the row of a division the difference of that division when no later
    division has its ordinal position as identifier, and it logs no size
    message. *)
Theorem compare_index_writes_differences rnd ds index var_names trace ds' tr :
  store_wf ds →
  is_Some (variables ds !! var_names.1) →
  is_Some (variables ds !! var_names.2) →
  compare_index ext find_netcdf_datatype rnd ds index var_names trace
  = Ok (ds', tr) →
  (∃ events,
     tr = (trace ++ events)%list
     ∧ ∀ i t n, LogInfo (unexpected_size_message i t n) ∉ events)
  ∧ ∀ i, i < length (divisions ds) → ordinal_kept (divisions ds) i →
      ∃ d, differences_of ext ds var_names i = Ok d
           ∧ row_of ds' ("diffs_" +:+ index) i = Some d.
Proof.
  intros Hwf H1 H2 Hrun.
  destruct (compare_index_rows _ _ _ _ _ _ _ _ _ Hwf H1 H2 Hrun)
    as (diffs & Hdiffs & Hrows & Hlog).
  split; [done|]. intros i Hi Hkept.
  destruct (diff_dictionary_kept _ _ _ _ _ Hdiffs Hi Hkept) as (d & Hd & Hkey).
  destruct (Hrows i Hi) as (d' & Hkey' & Hrow).
  exists d. split; [done|]. congruence.
Qed.

(** X8: when a later division has the ordinal position of an earlier one
    as its identifier, the run writes the difference of the later division
    (the last such one) into the row of the earlier division. *)
Theorem compare_index_shadowed_row rnd ds index var_names trace ds' tr i j :
  store_wf ds →
  is_Some (variables ds !! var_names.1) →
  is_Some (variables ds !! var_names.2) →
  compare_index ext find_netcdf_datatype rnd ds index var_names trace
  = Ok (ds', tr) →
  i < j → divisions ds !! j = Some (ordinal i) →
  (∀ j', j < j' → divisions ds !! j' ≠ Some (ordinal i)) →
  ∃ d, differences_of ext ds var_names j = Ok d
       ∧ row_of ds' ("diffs_" +:+ index) i = Some d.
Proof.
  intros Hwf H1 H2 Hrun Hij Hj Hlast.
  destruct (compare_index_rows _ _ _ _ _ _ _ _ _ Hwf H1 H2 Hrun)
    as (diffs & Hdiffs & Hrows & _).
  destruct (diff_dictionary_shadowed _ _ _ _ _ _ Hdiffs Hij Hj Hlast)
    as (d & Hd & Hkey).
  destruct (Hrows i) as (d' & Hkey' & Hrow).
  { apply lookup_lt_Some in Hj. lia. }
  exists d. split; [done|]. congruence.
Qed.

(** X9: a run of the write stage keeps the shape of the store: when every
    variable has the declared (division, time) shape before, every
    variable has it afterwards, the variable of the differences
    included. *)
Theorem persist_keeps_shape rnd ds diffs index ds' tr :
  store_wf ds →
  persist find_netcdf_datatype rnd ds diffs index = Ok (ds', tr) →
  store_wf ds'
  ∧ ∃ v, variables ds' !! ("diffs_" +:+ index) = Some v
         ∧ has_shape (length (divisions ds)) (times_size ds) v.
Proof.
  intros Hwf Hrun.
  pose proof (persist_store_wf _ _ _ _ _ _ _ Hwf Hrun) as Hwf'.
  pose proof (persist_effect _ _ _ _ _ _ _ Hrun) as (Hdiv & Htime & [v Hv] & _).
  split; [done|]. exists v. split; [done|].
  rewrite <-Hdiv, <-Htime. by apply (Hwf' _ _ Hv).
Qed.

(** X10: the write stage reads the dictionary only at the ordinal
    positions of the divisions: when the variable of the differences
    exists, two dictionaries that agree there give the same result,
    whatever their other entries and whatever the random draws. *)
Theorem persist_reads_ordinals_only rnd1 rnd2 ds diffs1 diffs2 index :
  is_Some (variables ds !! ("diffs_" +:+ index)) →
  (∀ i, i < length (divisions ds) →
        diffs1 !! ordinal i = diffs2 !! ordinal i) →
  persist find_netcdf_datatype rnd1 ds diffs1 index
  = persist find_netcdf_datatype rnd2 ds diffs2 index.
Proof.
  intros [v Hv] Hagree. unfold persist, provision. rewrite Hv. simpl.
  apply write_loop_agree. intros i Hi. apply Hagree. lia.
Qed.

(** X11: the random draw decides at most the datatype of a variable that
    is created: two runs that complete leave the same coordinates and the
    same rows in every variable. *)
Theorem persist_rows_independent_of_draw rnd1 rnd2 ds diffs index
    ds1 tr1 ds2 tr2 :
  persist find_netcdf_datatype rnd1 ds diffs index = Ok (ds1, tr1) →
  persist find_netcdf_datatype rnd2 ds diffs index = Ok (ds2, tr2) →
  divisions ds1 = divisions ds2
  ∧ times_size ds1 = times_size ds2
  ∧ ∀ name i, row_of ds1 name i = row_of ds2 name i.
Proof.
  intros Hrun1 Hrun2.
  pose proof (persist_effect _ _ _ _ _ _ _ Hrun1) as (Hdiv1 & Htime1 & _ & Hother1).
  pose proof (persist_effect _ _ _ _ _ _ _ Hrun2) as (Hdiv2 & Htime2 & _ & Hother2).
  split; [congruence|]. split; [congruence|]. intros name i.
  destruct (decide (name = "diffs_" +:+ index)) as [->|Hne];
    [|unfold row_of; by rewrite Hother1, Hother2].
  apply persist_inv in Hrun1 as (p1 & e1 & Hprov1 & Hloop1).
  apply persist_inv in Hrun2 as (p2 & e2 & Hprov2 & Hloop2).
  pose proof (provision_frame _ _ _ _ _ _ _ Hprov1) as (Hd1 & Ht1 & _ & _).
  pose proof (provision_frame _ _ _ _ _ _ _ Hprov2) as (Hd2 & Ht2 & _ & _).
  assert (row_of p1 ("diffs_" +:+ index) i = row_of p2 ("diffs_" +:+ index) i)
    as Hstart.
  { apply provision_inv in Hprov1 as [(v1 & Hv1 & -> & _)|(Hn1 & dt1 & -> & _)];
      apply provision_inv in Hprov2 as [(v2 & Hv2 & -> & _)|(Hn2 & dt2 & -> & _)];
      try congruence.
    apply row_of_create_variable. }
  destruct (write_loop_rows _ _ _ _ _ _ _ _ Hloop1 i) as [Hw1 Hnw1].
  destruct (write_loop_rows _ _ _ _ _ _ _ _ Hloop2 i) as [Hw2 Hnw2].
  rewrite Hd1, Ht1 in Hw1, Hnw1. rewrite Hd2, Ht2 in Hw2, Hnw2.
  destruct (diffs !! ordinal i) as [d|] eqn:Hd.
  - destruct (decide (i < length (divisions ds) ∧ length d = times_size ds))
      as [[Hi Hlen]|Hnot].
    + rewrite (Hw1 d), (Hw2 d); [done|split; [lia|done]..].
    + rewrite Hnw1, Hnw2; [done|..];
        intros d' (Hi & Hd' & Hlen); apply Hnot;
        assert (d' = d) as -> by congruence; (split; [lia|done]).
  - rewrite Hnw1, Hnw2; [done|..]; intros d' (_ & ? & _); congruence.
Qed.

(** X12: on a store of the declared shape with at least one division and
    one time step that has both variables, with a datatype for every item
    and a pyplot that accepts every call, the run completes; the store
    keeps the declared shape and has the variable of the differences. *)
Theorem compare_index_completes rnd ds index var_names trace :
  plots_accepted ext →
  (∀ item, ∃ dt, find_netcdf_datatype item = Ok dt) →
  store_wf ds → divisions ds ≠ [] → 0 < times_size ds →
  is_Some (variables ds !! var_names.1) →
  is_Some (variables ds !! var_names.2) →
  ∃ ds' tr,
    compare_index ext find_netcdf_datatype rnd ds index var_names trace
    = Ok (ds', tr)
    ∧ store_wf ds'
    ∧ is_Some (variables ds' !! ("diffs_" +:+ index)).
Proof.
  intros Haccepted Hfind Hwf Hdivisions Htime H1 H2.
  destruct (compare_index_returns ext find_netcdf_datatype rnd ds index
              var_names trace) as (ds' & tr & Hrun); [done..|].
  exists ds', tr. split; [done|]. by eapply compare_index_store_wf.
Qed.



End PipelineTheorems.

Section ComparisonsFacts.

Variable ext : externals.
Variable find_netcdf_datatype : option float → result string.

Lemma run_comparisons_spec draw comparisons : ∀ ds tr,
  plots_accepted ext →
  (∀ item, ∃ dt, find_netcdf_datatype item = Ok dt) →
  store_wf ds → divisions ds ≠ [] → 0 < times_size ds →
  comparisons_independent comparisons →
  (∀ c, c ∈ comparisons →
        is_Some (variables ds !! c.2.1) ∧ is_Some (variables ds !! c.2.2)) →
  ∃ ds' tr',
    run_comparisons ext find_netcdf_datatype draw comparisons ds tr
    = Ok (ds', tr')
    ∧ store_wf ds'
    ∧ divisions ds' = divisions ds
    ∧ times_size ds' = times_size ds
    ∧ (∀ name, (∀ c, c ∈ comparisons → name ≠ "diffs_" +:+ c.1) →
               variables ds' !! name = variables ds !! name)
    ∧ ∀ c, c ∈ comparisons →
        ∀ i, i < length (divisions ds) → ordinal_kept (divisions ds) i →
          ∃ d, differences_of ext ds c.2 i = Ok d
               ∧ row_of ds' ("diffs_" +:+ c.1) i = Some d.
Proof.
  induction comparisons as [|[index var_names] rest IH];
    intros ds tr Haccepted Hfind Hwf Hdivisions Htime [Hnodup Hindep] Hpresent.
  { exists ds, tr. do 5 (split; [done|]). intros c Hc. by apply elem_of_nil in Hc. }
  rewrite fmap_cons in Hnodup. apply NoDup_cons in Hnodup as [Hfresh Hnodup].
  apply Forall_cons in Hindep as [Hhead Hindep].
  apply Forall_cons in Hhead as [_ Hhead].
  assert (Forall (λ c, c.2.1 ≠ "diffs_" +:+ index
                       ∧ c.2.2 ≠ "diffs_" +:+ index) rest) as Hrest_reads.
  { eapply Forall_impl; [exact Hindep|]. intros c Hc.
    by apply Forall_cons in Hc as [Hc _]. }
  assert (comparisons_independent rest) as Hindep_rest.
  { split; [done|]. eapply Forall_impl; [exact Hindep|]. intros c Hc.
    by apply Forall_cons in Hc as [_ Hc]. }
  destruct (Hpresent (index, var_names)) as [H1 H2]; [by left|]. simpl in H1, H2.
  destruct (compare_index_returns ext find_netcdf_datatype (draw index) ds
              index var_names tr) as (ds1 & trace1 & Hrun); [done..|].
  pose proof (compare_index_effect _ _ _ _ _ _ _ _ _ Hrun)
    as (Hdiv1 & Htime1 & Hother1).
  destruct (compare_index_store_wf _ _ _ _ _ _ _ _ _ Hwf Hrun) as [Hwf1 _].
  destruct (IH ds1 trace1)
    as (ds' & tr' & Hrest & Hwf' & Hdiv' & Htime' & Hframe & Hrows);
    [done|done|done|congruence|lia|done|..].
  { intros c Hc. destruct (Hpresent c) as [Hc1 Hc2]; [by right|].
    apply (proj1 (Forall_forall _ _) Hrest_reads) in Hc as [Hne1 Hne2].
    by rewrite !Hother1. }
  exists ds', tr'. split.
  { cbn [run_comparisons]. rewrite Hrun. simpl. exact Hrest. }
  split; [done|]. split; [congruence|]. split; [congruence|]. split.
  { intros name Hname. rewrite Hframe.
    - apply Hother1. apply (Hname (index, var_names)). by left.
    - intros c Hc. apply Hname. by right. }
  intros c Hc i Hi Hkept. apply elem_of_cons in Hc as [->|Hc]; simpl.
  - destruct (compare_index_rows _ _ _ _ _ _ _ _ _ Hwf H1 H2 Hrun)
      as (diffs & Hdiffs & Hwritten & _).
    destruct (diff_dictionary_kept _ _ _ _ _ Hdiffs Hi Hkept)
      as (d & Hd & Hkey).
    destruct (Hwritten i Hi) as (d' & Hkey' & Hrow).
    exists d. split; [done|].
    unfold row_of. rewrite Hframe; [unfold row_of in Hrow; congruence|].
    intros c Hc Heq. apply string_app_inj_l in Heq.
    apply Hfresh. apply list_elem_of_fmap. by exists c.
  - destruct (Hrows c Hc i) as (d & Hd & Hrow);
      [congruence|by rewrite Hdiv1|].
    exists d. split; [|done].
    apply (proj1 (Forall_forall _ _) Hrest_reads) in Hc as [Hne1 Hne2].
    rewrite <-Hd. symmetry. by apply differences_of_agree; apply Hother1.
Qed.

(** X13: on a store of the declared shape with at least one division and
    one time step that has the eight compared variables, with a datatype
    for every item and a pyplot that accepts every call, the four
    comparisons complete one after the other; they leave the coordinates
    and the compared variables as they were, and each variable of
    differences holds, in the row of every division whose ordinal position
    no later identifier repeats, the difference of that division computed
    on the store before the run. *)
Theorem run_comparisons_complete draw ds trace :
  plots_accepted ext →
  (∀ item, ∃ dt, find_netcdf_datatype item = Ok dt) →
  store_wf ds → divisions ds ≠ [] → 0 < times_size ds →
  (∀ name, name ∈ compared_variables → is_Some (variables ds !! name)) →
  ∃ ds' tr,
    run_comparisons ext find_netcdf_datatype draw comparison_arrays ds trace
    = Ok (ds', tr)
    ∧ store_wf ds'
    ∧ divisions ds' = divisions ds
    ∧ times_size ds' = times_size ds
    ∧ (∀ name, name ∈ compared_variables →
               variables ds' !! name = variables ds !! name)
    ∧ ∀ index var_names, (index, var_names) ∈ comparison_arrays →
        ∀ i, i < length (divisions ds) → ordinal_kept (divisions ds) i →
          ∃ d, differences_of ext ds var_names i = Ok d
               ∧ row_of ds' ("diffs_" +:+ index) i = Some d.
Proof.
  intros Haccepted Hfind Hwf Hdivisions Htime Hpresent.
  destruct (run_comparisons_spec draw comparison_arrays ds trace)
    as (ds' & tr & Hrun & Hwf' & Hdiv & Htime' & Hframe & Hrows);
    [done..| | |].
  - split; [by_compute|]. unfold comparison_arrays.
    repeat (apply Forall_cons; split); try apply Forall_nil; done.
  - intros c Hc. unfold comparison_arrays in Hc.
    repeat (apply elem_of_cons in Hc as [->|Hc]);
      [..|by apply elem_of_nil in Hc];
      split; apply Hpresent; by_compute.
  - exists ds', tr. split; [done|]. split; [done|]. split; [done|].
    split; [done|]. split.
    + intros name Hname. apply Hframe. intros c Hc.
      unfold compared_variables in Hname. unfold comparison_arrays in Hc.
      each_member Hname;
        repeat (apply elem_of_cons in Hc as [->|Hc]);
        first [done|by apply elem_of_nil in Hc].
    + intros index var_names Hc. by apply (Hrows (index, var_names)).
Qed.

End ComparisonsFacts.

Lemma compare_index_no_divisions_witness :
  compare_index binary64_libraries always_f8 0
    (Dataset [] 4 (variables scenario)) "Z-Index" ("cmb_zndx", "zindex") []
  = Raise (IndexError "Cannot choose from an empty sequence").
Proof.
  destruct (compare_index_no_divisions binary64_libraries always_f8 0
              (Dataset [] 4 (variables scenario)) "Z-Index"
              ("cmb_zndx", "zindex") [] eq_refl) as [_ Hrun].
  exact Hrun.
Defined.

Lemma compare_index_missing_variable_witness :
  compare_index binary64_libraries always_f8 0 scenario "PDSI"
    ("wrcc_pdsi", "pdsi") []
  = Raise (KeyError "wrcc_pdsi")
  ∧ compare_index binary64_libraries always_f8 0 scenario "Z-Index"
      ("cmb_zndx", "zndx") []
    = Raise (KeyError "zndx").
Proof.
  split.
  - destruct (compare_index_missing_variable binary64_libraries always_f8 0
                scenario "PDSI" ("wrcc_pdsi", "pdsi") [])
      as [Hreference _]; [done|].
    apply Hreference. reflexivity.
  - destruct (compare_index_missing_variable binary64_libraries always_f8 0
                scenario "Z-Index" ("cmb_zndx", "zndx") [])
      as [_ Hcandidate]; [done|].
    eapply Hcandidate; reflexivity.
Defined.

Lemma compare_index_writes_differences_witness :
  ∃ ds' tr d,
    compare_index binary64_libraries always_f8 0 scenario "Z-Index"
      ("cmb_zndx", "zindex") [] = Ok (ds', tr)
    ∧ differences_of binary64_libraries scenario ("cmb_zndx", "zindex") 0
      = Ok d
    ∧ row_of ds' "diffs_Z-Index" 0 = Some d.
Proof.
  destruct (compare_index binary64_libraries always_f8 0 scenario "Z-Index"
              ("cmb_zndx", "zindex") [])
    as [[ds' tr]|e] eqn:Hrun; [|vm_compute in Hrun; discriminate].
  destruct (compare_index_writes_differences binary64_libraries always_f8 0
              scenario "Z-Index" ("cmb_zndx", "zindex") [] ds' tr)
    as [_ Hrows].
  - unfold scenario. shape_by_cases.
  - by eexists.
  - by eexists.
  - exact Hrun.
  - destruct (Hrows 0) as (d & Hd & Hrow); [simpl; lia|kept_by_cases|].
    exists ds', tr, d. split; [reflexivity|]. split; [exact Hd|exact Hrow].
Defined.

Lemma compare_index_shadowed_row_witness :
  ∃ ds' tr,
    compare_index binary64_libraries always_f8 0 shadowing_store "X"
      ("reference", "candidate") [] = Ok (ds', tr)
    ∧ differences_of binary64_libraries shadowing_store
        ("reference", "candidate") 1
      = Ok (row_of_numbers [5]%float)
    ∧ row_of ds' "diffs_X" 0 = Some (row_of_numbers [5]%float).
Proof.
  destruct (compare_index binary64_libraries always_f8 0 shadowing_store "X"
              ("reference", "candidate") [])
    as [[ds' tr]|e] eqn:Hrun; [|vm_compute in Hrun; discriminate].
  destruct (compare_index_shadowed_row binary64_libraries always_f8 0
              shadowing_store "X" ("reference", "candidate") [] ds' tr 0 1)
    as (d & Hd & Hrow).
  - unfold shadowing_store. shape_by_cases.
  - by eexists.
  - by eexists.
  - exact Hrun.
  - lia.
  - reflexivity.
  - intros j Hj Hlook. simpl in Hlook.
    destruct j as [|[|j]]; [lia|lia|discriminate].
  - exists ds', tr. split; [reflexivity|].
    assert (d = row_of_numbers [5]%float) as ->
      by (vm_compute in Hd; injection Hd as <-; reflexivity).
    split; [reflexivity|exact Hrow].
Defined.

Lemma persist_keeps_shape_witness :
  ∃ ds' tr v,
    persist always_f8 0 scenario short_diffs "Z-Index" = Ok (ds', tr)
    ∧ store_wf ds'
    ∧ variables ds' !! "diffs_Z-Index" = Some v
    ∧ has_shape 2 4 v.
Proof.
  destruct (persist always_f8 0 scenario short_diffs "Z-Index")
    as [[ds' tr]|e] eqn:Hrun; [|vm_compute in Hrun; discriminate].
  destruct (persist_keeps_shape always_f8 0 scenario short_diffs "Z-Index"
              ds' tr) as (Hwf & v & Hv & Hshape).
  - unfold scenario. shape_by_cases.
  - exact Hrun.
  - exists ds', tr, v. split; [reflexivity|]. split; [exact Hwf|].
    split; [exact Hv|exact Hshape].
Defined.

Lemma persist_reads_ordinals_only_witness :
  persist always_f8 0 (create_variable scenario "diffs_Z-Index" "f8")
    short_diffs "Z-Index"
  = persist always_f8 1 (create_variable scenario "diffs_Z-Index" "f8")
      (<[KInt 101 := row_of_numbers [9; 9; 9; 9]%float]> short_diffs)
      "Z-Index".
Proof.
  apply persist_reads_ordinals_only.
  - by eexists.
  - intros i Hi. simpl in Hi.
    destruct i as [|[|i]]; [reflexivity|reflexivity|lia].
Defined.

Lemma persist_rows_independent_of_draw_witness :
  ∃ ds1 tr1 ds2 tr2,
    persist always_f8 0 scenario short_diffs "Z-Index" = Ok (ds1, tr1)
    ∧ persist always_f8 1 scenario short_diffs "Z-Index" = Ok (ds2, tr2)
    ∧ ∀ name i, row_of ds1 name i = row_of ds2 name i.
Proof.
  destruct (persist always_f8 0 scenario short_diffs "Z-Index")
    as [[ds1 tr1]|e] eqn:Hrun1; [|vm_compute in Hrun1; discriminate].
  destruct (persist always_f8 1 scenario short_diffs "Z-Index")
    as [[ds2 tr2]|e] eqn:Hrun2; [|vm_compute in Hrun2; discriminate].
  exists ds1, tr1, ds2, tr2. split; [reflexivity|]. split; [reflexivity|].
  by destruct (persist_rows_independent_of_draw always_f8 0 1 scenario
                 short_diffs "Z-Index" ds1 tr1 ds2 tr2 Hrun1 Hrun2)
    as (_ & _ & Hrows).
Defined.

Lemma compare_index_completes_witness :
  ∃ ds' tr,
    compare_index binary64_libraries always_f8 0 scenario "Z-Index"
      ("cmb_zndx", "zindex") [] = Ok (ds', tr)
    ∧ store_wf ds'
    ∧ is_Some (variables ds' !! "diffs_Z-Index").
Proof.
  apply (compare_index_completes binary64_libraries always_f8 0 scenario
           "Z-Index" ("cmb_zndx", "zindex") []).
  - intros trace call. reflexivity.
  - intros item. by eexists.
  - unfold scenario. shape_by_cases.
  - discriminate.
  - simpl. lia.
  - by eexists.
  - by eexists.
Defined.

Lemma run_comparisons_complete_witness :
  ∃ ds' tr d,
    run_comparisons binary64_libraries always_f8 (λ _, 0) comparison_arrays
      full_scenario [] = Ok (ds', tr)
    ∧ differences_of binary64_libraries full_scenario
        ("cmb_zndx", "zindex") 1 = Ok d
    ∧ row_of ds' "diffs_Z-Index" 1 = Some d.
Proof.
  destruct (run_comparisons_complete binary64_libraries always_f8 (λ _, 0)
              full_scenario [])
    as (ds' & tr & Hrun & _ & _ & _ & _ & Hrows).
  - intros trace call. reflexivity.
  - intros item. by eexists.
  - unfold full_scenario, scenario. shape_by_cases.
  - discriminate.
  - simpl. lia.
  - intros name Hname. unfold compared_variables in Hname.
    each_member Hname; by eexists.
  - destruct (Hrows "Z-Index" ("cmb_zndx", "zindex")) with (i := 1)
      as (d & Hd & Hrow).
    + by_compute.
    + simpl. lia.
    + kept_by_cases.
    + exists ds', tr, d. split; [exact Hrun|]. split; [exact Hd|exact Hrow].
Defined.


